(** * Ntree: block signing over a tree with independent signatures

    A shallow embedding of the Ntree protocol node of
    [src/unnamed/part_000]: the per-node state, the four message handlers of
    [listen], the two contribution steps, the bundle verification goroutine
    and a small network of nodes over which whole runs are executed.

    Modelling conventions.
    - Go [int] is a 64-bit two's-complement integer: a [Z] with the
      wrap-around written out ([int_wrap]).
    - A Go channel of booleans is the queue of values that goroutines have
      offered on it and that nobody has received yet.  The channels of the
      node are unbuffered, so a goroutine that offers several values offers
      them in program order and each one waits for its own receiver; a
      receive on an empty queue parks the receiving goroutine ([Blocked]).
    - [go f(...)] of a goroutine whose only effect is to offer values on a
      channel appends the values it offers to that queue.
    - The overlay, the signature primitive, the JSON encoder and the block
      validator are collaborators of the node; they are gathered in the class
      [Collaborators]. *)

From Stdlib Require Import ZArith Lia Field.
From Stdlib Require Qcanon.
From stdpp Require Import base numbers option list gmap strings.

Local Open Scope Z_scope.
Set Warnings "-register-all".

(** ** Machine integers *)

Definition int_wrap (z : Z) : Z := (z + 2 ^ 63) mod 2 ^ 64 - 2 ^ 63.

Definition int_add (a b : Z) : Z := int_wrap (a + b).
Definition int_mul (a b : Z) : Z := int_wrap (a * b).

(** [len(s)] of a Go slice. *)
Definition len {A} (l : list A) : Z := Z.of_nat (length l).

(** ** Collaborators *)

Definition bytes := list Byte.byte.

(** A Go [error]: [None] is [nil]. *)
Definition error := option nat.

Definition TreeNodeID := N.

Class Collaborators := {
  TrBlock : Type;
  TrHeader : Type;
  (** [nt.block.Header] *)
  Header : TrBlock → TrHeader;
  Private : Type;
  Public : Type;
  SchnorrSig : Type;
  (** [json.Marshal(nt.block)]; the block pointer may be nil. *)
  jsonMarshalBlock : option TrBlock → bytes * error;
  (** [json.Marshal(nt.block.Header)] *)
  jsonMarshalHeader : TrHeader → bytes * error;
  (** [crypto.SignSchnorr(nt.Suite(), private, msg)] *)
  SignSchnorr : Private → bytes → SchnorrSig * error;
  (** [crypto.VerifySchnorr(nt.Suite(), public, msg, sig)] *)
  VerifySchnorr : Public → bytes → SchnorrSig → error;
  (** Modelled from the spec: [byzcoin.VerifyBlock], whose body is not among
      the sources.  The block verification task checks the validity of the
      block and delivers exactly one boolean on the channel it is given;
      [VerifyBlock] is that boolean. *)
  VerifyBlock : option TrBlock → bool
}.

Section Ntree.
Context `{C : Collaborators}.

(** ** Messages *)

Record Exception := mkException { ID : TreeNodeID }.

Record NaiveBlockSignature := mkNaiveBlockSignature {
  Sigs : list SchnorrSig;
  Exceptions : list Exception
}.

(** [RoundSignatureRequest] and [RoundSignatureResponse] embed a pointer to a
    [NaiveBlockSignature] and nothing else; [BlockAnnounce] carries the
    block pointer. *)
Inductive Msg :=
| BlockAnnounce (b : option TrBlock)
| BlockSignature (m : NaiveBlockSignature)
| RoundSignatureRequest (m : NaiveBlockSignature)
| RoundSignatureResponse (m : NaiveBlockSignature).

(** What a handler does to the outside: a message handed to the overlay, a
    logged error, the completion callback. *)
Inductive event :=
| SendTo (to : option TreeNodeID) (m : Msg)
| LogError
| OnDone (b : option TrBlock) (r : NaiveBlockSignature).

(** ** Node state *)

Record Ntree := mkNtree {
  (** the embedded [TreeNodeInstance] *)
  nodeID : TreeNodeID;
  Parent : option TreeNodeID;
  Children : list TreeNodeID;
  TreeList : list TreeNodeID;
  private : Private;
  public : Public;
  (** the fields of [Ntree] *)
  block : option TrBlock;
  verifyBlockChan : list bool;
  verifySignatureRequestChan : list bool;
  tempBlockSig : NaiveBlockSignature;
  tempBlockSigReceived : Z;
  tempSignatureResponse : NaiveBlockSignature;
  tempSignatureResponseReceived : Z;
  onDoneCallback : bool
}.

Definition IsRoot (nt : Ntree) : bool := bool_decide (Parent nt = None).
Definition IsLeaf (nt : Ntree) : bool := bool_decide (len (Children nt) = 0).

Definition set_block (b : option TrBlock) (nt : Ntree) : Ntree :=
  mkNtree (nodeID nt) (Parent nt) (Children nt) (TreeList nt) (private nt)
    (public nt) b (verifyBlockChan nt) (verifySignatureRequestChan nt)
    (tempBlockSig nt) (tempBlockSigReceived nt) (tempSignatureResponse nt)
    (tempSignatureResponseReceived nt) (onDoneCallback nt).

Definition set_verifyBlockChan (q : list bool) (nt : Ntree) : Ntree :=
  mkNtree (nodeID nt) (Parent nt) (Children nt) (TreeList nt) (private nt)
    (public nt) (block nt) q (verifySignatureRequestChan nt)
    (tempBlockSig nt) (tempBlockSigReceived nt) (tempSignatureResponse nt)
    (tempSignatureResponseReceived nt) (onDoneCallback nt).

Definition set_verifySignatureRequestChan (q : list bool) (nt : Ntree) : Ntree :=
  mkNtree (nodeID nt) (Parent nt) (Children nt) (TreeList nt) (private nt)
    (public nt) (block nt) (verifyBlockChan nt) q
    (tempBlockSig nt) (tempBlockSigReceived nt) (tempSignatureResponse nt)
    (tempSignatureResponseReceived nt) (onDoneCallback nt).

Definition set_tempBlockSig (b : NaiveBlockSignature) (nt : Ntree) : Ntree :=
  mkNtree (nodeID nt) (Parent nt) (Children nt) (TreeList nt) (private nt)
    (public nt) (block nt) (verifyBlockChan nt) (verifySignatureRequestChan nt)
    b (tempBlockSigReceived nt) (tempSignatureResponse nt)
    (tempSignatureResponseReceived nt) (onDoneCallback nt).

Definition set_tempBlockSigReceived (n : Z) (nt : Ntree) : Ntree :=
  mkNtree (nodeID nt) (Parent nt) (Children nt) (TreeList nt) (private nt)
    (public nt) (block nt) (verifyBlockChan nt) (verifySignatureRequestChan nt)
    (tempBlockSig nt) n (tempSignatureResponse nt)
    (tempSignatureResponseReceived nt) (onDoneCallback nt).

Definition set_tempSignatureResponse (b : NaiveBlockSignature) (nt : Ntree) : Ntree :=
  mkNtree (nodeID nt) (Parent nt) (Children nt) (TreeList nt) (private nt)
    (public nt) (block nt) (verifyBlockChan nt) (verifySignatureRequestChan nt)
    (tempBlockSig nt) (tempBlockSigReceived nt) b
    (tempSignatureResponseReceived nt) (onDoneCallback nt).

Definition set_tempSignatureResponseReceived (n : Z) (nt : Ntree) : Ntree :=
  mkNtree (nodeID nt) (Parent nt) (Children nt) (TreeList nt) (private nt)
    (public nt) (block nt) (verifyBlockChan nt) (verifySignatureRequestChan nt)
    (tempBlockSig nt) (tempBlockSigReceived nt) (tempSignatureResponse nt)
    n (onDoneCallback nt).

(** [NewNtreeProtocol]: fresh channels, empty bundles, zero counters. *)
Definition NewNtreeProtocol (id : TreeNodeID) (parent : option TreeNodeID)
    (children tree : list TreeNodeID) (sk : Private) (pk : Public) : Ntree :=
  mkNtree id parent children tree sk pk None [] []
    (mkNaiveBlockSignature [] []) 0 (mkNaiveBlockSignature [] []) 0 false.

(** [NewNTreeRootProtocol]; the block is the one [byzcoin.GetBlock] built. *)
Definition NewNTreeRootProtocol (id : TreeNodeID) (parent : option TreeNodeID)
    (children tree : list TreeNodeID) (sk : Private) (pk : Public)
    (b : option TrBlock) : Ntree :=
  set_block b (NewNtreeProtocol id parent children tree sk pk).

(** [RegisterOnDone] *)
Definition RegisterOnDone (nt : Ntree) : Ntree :=
  mkNtree (nodeID nt) (Parent nt) (Children nt) (TreeList nt) (private nt)
    (public nt) (block nt) (verifyBlockChan nt) (verifySignatureRequestChan nt)
    (tempBlockSig nt) (tempBlockSigReceived nt) (tempSignatureResponse nt)
    (tempSignatureResponseReceived nt) true.

(** ** The handler monad

    A method of the node either returns, is parked on a receive from an
    empty channel, or panics (nil dereference).  In each case it leaves a
    node state and the events it produced so far. *)

Inductive outcome (A : Type) :=
| Ret (a : A) (nt : Ntree) (out : list event)
| Blocked (nt : Ntree) (out : list event)
| Panic (nt : Ntree) (out : list event).
Arguments Ret {A} a nt out.
Arguments Blocked {A} nt out.
Arguments Panic {A} nt out.

Definition M (A : Type) : Type := Ntree → outcome A.

Definition ret {A} (a : A) : M A := λ nt, Ret a nt [].

Definition bind {A B} (m : M A) (k : A → M B) : M B := λ nt,
  match m nt with
  | Ret a nt1 out1 =>
      match k a nt1 with
      | Ret b nt2 out2 => Ret b nt2 (out1 ++ out2)
      | Blocked nt2 out2 => Blocked nt2 (out1 ++ out2)
      | Panic nt2 out2 => Panic nt2 (out1 ++ out2)
      end
  | Blocked nt1 out1 => Blocked nt1 out1
  | Panic nt1 out1 => Panic nt1 out1
  end.

Notation "'let*' x ':=' m 'in' k" := (bind m (λ x, k))
  (at level 10, x name, m at level 100, k at level 200, only parsing).
Notation "m ;; k" := (bind m (λ _, k))
  (at level 100, k at level 200, right associativity, only parsing).

Definition get : M Ntree := λ nt, Ret nt nt [].
Definition modify (f : Ntree → Ntree) : M unit := λ nt, Ret tt (f nt) [].
Definition emit (e : event) : M unit := λ nt, Ret tt nt [e].
Definition panic {A} : M A := λ nt, Panic nt [].

(** [<-nt.verifyBlockChan] *)
Definition recv_verifyBlockChan : M bool := λ nt,
  match verifyBlockChan nt with
  | [] => Blocked nt []
  | b :: q => Ret b (set_verifyBlockChan q nt) []
  end.

(** [<-nt.verifySignatureRequestChan] *)
Definition recv_verifySignatureRequestChan : M bool := λ nt,
  match verifySignatureRequestChan nt with
  | [] => Blocked nt []
  | b :: q => Ret b (set_verifySignatureRequestChan q nt) []
  end.

(** [for _, tn := range nt.Children() { nt.SendTo(tn, msg) ... }]; a failed
    send is logged by the overlay's caller and the loop goes on. *)
Fixpoint sendToChildren (tns : list TreeNodeID) (m : Msg) : M unit :=
  match tns with
  | [] => ret tt
  | tn :: tns' => emit (SendTo (Some tn) m) ;; sendToChildren tns' m
  end.

(** [go byzcoin.VerifyBlock(nt.block, "", "", nt.verifyBlockChan)] *)
Definition go_VerifyBlock : M unit :=
  modify (λ nt, set_verifyBlockChan (verifyBlockChan nt ++ [VerifyBlock (block nt)]) nt).

(** ** Bundles *)

(** The two [append]s that open [handleBlockSignature] and
    [handleRoundSignatureResponse]. *)
Definition merge (self other : NaiveBlockSignature) : NaiveBlockSignature :=
  mkNaiveBlockSignature (Sigs self ++ Sigs other)
                        (Exceptions self ++ Exceptions other).

Definition add_sig (s : SchnorrSig) (b : NaiveBlockSignature) : NaiveBlockSignature :=
  mkNaiveBlockSignature (Sigs b ++ [s]) (Exceptions b).

Definition add_exception (e : Exception) (b : NaiveBlockSignature) : NaiveBlockSignature :=
  mkNaiveBlockSignature (Sigs b) (Exceptions b ++ [e]).

Definition size (b : NaiveBlockSignature) : nat :=
  length (Sigs b) + length (Exceptions b).

(** ** Phase 1 *)

(** [computeBlockSignature] *)
Definition computeBlockSignature : M unit :=
  let* ok := recv_verifyBlockChan in
  let* nt := get in
  let '(marshalled, err) := jsonMarshalBlock (block nt) in
  match err with
  | Some _ => emit LogError
  | None =>
      if negb ok then
        modify (λ nt, set_tempBlockSig
                        (add_exception (mkException (nodeID nt)) (tempBlockSig nt)) nt)
      else
        let '(schnorr, _) := SignSchnorr (private nt) marshalled in
        modify (λ nt, set_tempBlockSig (add_sig schnorr (tempBlockSig nt)) nt)
  end.

(** [startBlockSignature] *)
Definition startBlockSignature : M unit :=
  computeBlockSignature ;;
  let* nt := get in
  emit (SendTo (Parent nt) (BlockSignature (tempBlockSig nt))).

(** ** Bundle verification *)

(** [int(math.Ceil(float64(len(nt.Tree().List())) / 3.0))].  The quotient of
    an integer below 2^52 by 3.0 rounds to a float64 that lies strictly
    between the two neighbouring integers when 3 does not divide it and is
    exact when it does, so the ceiling is the integer ceiling. *)
Definition threshold (nt : Ntree) : Z := (len (TreeList nt) + 2) / 3.

(** The loop over [msg.Sigs]: every signature is checked with the public key
    of the verifying node over the encoding of its own block. *)
Definition goodSig (nt : Ntree) (msg : NaiveBlockSignature) : Z :=
  let marshalled := fst (jsonMarshalBlock (block nt)) in
  fold_left (λ good sig,
               match VerifySchnorr (public nt) marshalled sig with
               | None => int_add good 1
               | Some _ => good
               end) (Sigs msg) 0.

(** [verifySignatureRequest], run as a goroutine: the values it offers on
    [nt.verifySignatureRequestChan], in program order.  Neither [if] returns
    after its send. *)
Definition verifySignatureRequest (nt : Ntree) (msg : NaiveBlockSignature) : list bool :=
  let threshold := threshold nt in
  (if bool_decide (len (Exceptions msg) > threshold) then [false] else [])
  ++ (if bool_decide (goodSig nt msg <= int_mul 2 threshold) then [false] else [])
  ++ [true].

(** [go nt.verifySignatureRequest(msg)] *)
Definition go_verifySignatureRequest (msg : NaiveBlockSignature) : M unit :=
  modify (λ nt, set_verifySignatureRequestChan
                  (verifySignatureRequestChan nt ++ verifySignatureRequest nt msg) nt).

(** [startSignatureRequest] *)
Definition startSignatureRequest (msg : NaiveBlockSignature) : M unit :=
  go_verifySignatureRequest msg ;;
  let* nt := get in
  sendToChildren (Children nt) (RoundSignatureRequest msg).

(** [handleBlockSignature] *)
Definition handleBlockSignature (msg : NaiveBlockSignature) : M unit :=
  modify (λ nt, set_tempBlockSig (merge (tempBlockSig nt) msg) nt) ;;
  modify (λ nt, set_tempBlockSigReceived (int_add (tempBlockSigReceived nt) 1) nt) ;;
  let* nt := get in
  if bool_decide (tempBlockSigReceived nt < len (Children nt)) then ret tt
  else
    computeBlockSignature ;;
    let* nt := get in
    if IsRoot nt then startSignatureRequest msg
    else emit (SendTo (Parent nt) (BlockSignature (tempBlockSig nt))).

(** ** Phase 2 *)

(** [computeSignatureResponse] *)
Definition computeSignatureResponse : M unit :=
  let* ok := recv_verifySignatureRequestChan in
  if negb ok then
    modify (λ nt, set_tempSignatureResponse
                    (add_exception (mkException (nodeID nt)) (tempSignatureResponse nt)) nt)
  else
    let* nt := get in
    match block nt with
    | None => panic
    | Some b =>
        let '(marshalled, err) := jsonMarshalHeader (Header b) in
        match err with
        | Some _ => emit LogError
        | None =>
            let '(sig, err) := SignSchnorr (private nt) marshalled in
            match err with
            | Some _ => ret tt
            | None =>
                modify (λ nt, set_tempSignatureResponse
                                (add_sig sig (tempSignatureResponse nt)) nt)
            end
        end
    end.

(** [startSignatureResponse] *)
Definition startSignatureResponse : M unit :=
  computeSignatureResponse ;;
  let* nt := get in
  emit (SendTo (Parent nt) (RoundSignatureResponse (tempSignatureResponse nt))).

(** [handleRoundSignatureResponse] *)
Definition handleRoundSignatureResponse (msg : NaiveBlockSignature) : M unit :=
  modify (λ nt, set_tempSignatureResponse (merge (tempSignatureResponse nt) msg) nt) ;;
  modify (λ nt, set_tempSignatureResponseReceived
                  (int_add (tempSignatureResponseReceived nt) 1) nt) ;;
  let* nt := get in
  if bool_decide (tempSignatureResponseReceived nt < len (Children nt)) then ret tt
  else
    computeSignatureResponse ;;
    let* nt := get in
    if IsRoot nt then
      if onDoneCallback nt then emit (OnDone (block nt) (tempSignatureResponse nt))
      else ret tt
    else emit (SendTo (Parent nt) (RoundSignatureResponse msg)).

(** ** The event loop *)

(** [Start]: the root announces the block. *)
Definition Start : M unit :=
  go_VerifyBlock ;;
  let* nt := get in
  sendToChildren (Children nt) (BlockAnnounce (block nt)).

(** One iteration of the [select] of [listen], for the message taken. *)
Definition listen (m : Msg) : M unit :=
  match m with
  | BlockAnnounce b =>
      modify (set_block b) ;;
      go_VerifyBlock ;;
      let* nt := get in
      if IsLeaf nt then startBlockSignature
      else sendToChildren (Children nt) (BlockAnnounce b)
  | BlockSignature msg => handleBlockSignature msg
  | RoundSignatureRequest msg =>
      go_verifySignatureRequest msg ;;
      let* nt := get in
      if IsLeaf nt then startSignatureResponse
      else sendToChildren (Children nt) (RoundSignatureRequest msg)
  | RoundSignatureResponse msg => handleRoundSignatureResponse msg
  end.

(** ** The acceptance rule as the specification words it

    [f] is the ceiling of a third of the number of participants; a round is
    rejected when the exceptions outnumber [f], else rejected when the
    verified signatures do not outnumber [2f], else accepted. *)

Fixpoint ceil_third (n : nat) : Z :=
  match n with
  | S (S (S n')) => 1 + ceil_third n'
  | O => 0
  | _ => 1
  end.

Definition ThresholdPolicy (participants exceptions goodSignatureCount : nat) : bool :=
  let f := ceil_third participants in
  if bool_decide (Z.of_nat exceptions > f) then false
  else if bool_decide (Z.of_nat goodSignatureCount <= 2 * f) then false
  else true.

(** The signatures of a bundle that verify under the public key of the node
    [nt] over the encoding of the block [nt] holds. *)
Definition verified (nt : Ntree) (msg : NaiveBlockSignature) : list SchnorrSig :=
  filter (λ sig, VerifySchnorr (public nt) (jsonMarshalBlock (block nt)).1 sig = None)
         (Sigs msg).

(** Consecutive iterations of the loop, one per message taken. *)
Fixpoint listenAll (ms : list Msg) : M unit :=
  match ms with
  | [] => ret tt
  | m :: ms' => listen m ;; listenAll ms'
  end.

(** What the phase-1 step of [nt] does to a bundle once it has received
    [ok]: nothing when the block does not encode, else one more signature
    or one more exception. *)
Definition phase1_item (nt : Ntree) (ok : bool)
    (bundle : NaiveBlockSignature) : NaiveBlockSignature :=
  match (jsonMarshalBlock (block nt)).2 with
  | Some _ => bundle
  | None =>
      if ok
      then add_sig (SignSchnorr (private nt) (jsonMarshalBlock (block nt)).1).1 bundle
      else add_exception (mkException (nodeID nt)) bundle
  end.

(** The node and the events a method leaves behind, however it ends. *)
Definition outcome_state {A} (o : outcome A) : Ntree :=
  match o with Ret _ nt _ | Blocked nt _ | Panic nt _ => nt end.

Definition outcome_events {A} (o : outcome A) : list event :=
  match o with Ret _ _ out | Blocked _ out | Panic _ out => out end.

(** Whom a node may address: its parent or one of its children. *)
Definition to_neighbour (nt : Ntree) (e : event) : Prop :=
  match e with
  | SendTo to _ => to = Parent nt ∨ ∃ tn, to = Some tn ∧ tn ∈ Children nt
  | _ => True
  end.


(** The four lists of a node's two bundles only ever grow at the end. *)
Definition bundles_extend (nt nt' : Ntree) : Prop :=
  Sigs (tempBlockSig nt) `prefix_of` Sigs (tempBlockSig nt')
  ∧ Exceptions (tempBlockSig nt) `prefix_of` Exceptions (tempBlockSig nt')
  ∧ Sigs (tempSignatureResponse nt) `prefix_of` Sigs (tempSignatureResponse nt')
  ∧ Exceptions (tempSignatureResponse nt)
    `prefix_of` Exceptions (tempSignatureResponse nt').

(** ** A network of nodes

    The overlay holds the messages that were handed to it and not delivered
    yet, each with its destination.  Delivering a message runs one iteration
    of the destination's [listen] loop.  A node whose loop is parked on a
    receive, or has panicked, takes no further message. *)

Record network := mkNetwork {
  nodes : gmap TreeNodeID Ntree;
  inflight : list (TreeNodeID * Msg);
  parked : list TreeNodeID;
  completed : list (option TrBlock * NaiveBlockSignature)
}.

Definition outgoing (out : list event) : list (TreeNodeID * Msg) :=
  omap (λ e, match e with SendTo (Some to) m => Some (to, m) | _ => None end) out.

Definition completions (out : list event) : list (option TrBlock * NaiveBlockSignature) :=
  omap (λ e, match e with OnDone b r => Some (b, r) | _ => None end) out.

(** The effect on the network of one method call at node [id]. *)
Definition at_node (id : TreeNodeID) (m : M unit) (net : network) : network :=
  match nodes net !! id with
  | None => net
  | Some nt =>
      if bool_decide (id ∈ parked net) then net
      else
        match m nt with
        | Ret _ nt' out =>
            mkNetwork (<[id := nt']> (nodes net)) (inflight net ++ outgoing out)
                      (parked net) (completed net ++ completions out)
        | Blocked nt' out | Panic nt' out =>
            mkNetwork (<[id := nt']> (nodes net)) (inflight net ++ outgoing out)
                      (id :: parked net) (completed net ++ completions out)
        end
  end.

(** Take the [i]-th message in flight out of the overlay and deliver it. *)
Definition deliver (i : nat) (net : network) : network :=
  match inflight net !! i with
  | None => net
  | Some (to, m) =>
      at_node to (listen m)
        (mkNetwork (nodes net) (delete i (inflight net)) (parked net) (completed net))
  end.

(** A schedule names, step by step, which message in flight is delivered. *)
Fixpoint run (sched : list nat) (net : network) : network :=
  match sched with
  | [] => net
  | i :: sched' => run sched' (deliver i net)
  end.

(** ** Trees *)

Inductive tree := T (id : TreeNodeID) (kids : list tree).

Definition tree_id (t : tree) : TreeNodeID := match t with T id _ => id end.

Fixpoint tree_list (t : tree) : list TreeNodeID :=
  match t with T id kids => id :: flat_map tree_list kids end.

(** One protocol instance per node of the tree, as the overlay creates them. *)
Fixpoint instances (keys : TreeNodeID → Private * Public) (all : list TreeNodeID)
    (parent : option TreeNodeID) (t : tree) : list (TreeNodeID * Ntree) :=
  match t with
  | T id kids =>
      (id, NewNtreeProtocol id parent (map tree_id kids) all (keys id).1 (keys id).2)
      :: flat_map (instances keys all (Some id)) kids
  end.

(** The network at the start of a round: every node fresh, the root holding
    the block and the completion callback, nothing in flight. *)
Definition init_network (keys : TreeNodeID → Private * Public) (t : tree)
    (b : option TrBlock) : network :=
  let ns : gmap TreeNodeID Ntree :=
    list_to_map (instances keys (tree_list t) None t) in
  mkNetwork (alter (λ nt, RegisterOnDone (set_block b nt)) (tree_id t) ns) [] [] [].

(** The driver starts the root and the overlay delivers according to
    [sched]. *)
Definition round (keys : TreeNodeID → Private * Public) (t : tree)
    (b : option TrBlock) (sched : list nat) : network :=
  run sched (at_node (tree_id t) Start (init_network keys t b)).

Definition nodeAt (net : network) (id : TreeNodeID) : option Ntree := nodes net !! id.

End Ntree.

Arguments Ret {C A} a nt out.
Arguments Blocked {C A} nt out.
Arguments Panic {C A} nt out.

(** ** A concrete set of collaborators

    Blocks are a header and a body; the encoding of a block is the encoding
    of its header followed by that of its body.  The key pair of a
    participant is its number, a signature is the pair of the signing key and
    the payload, and it verifies under the key and payload it was made from
    and under no other. *)

Module Toy.

#[export] Instance byte_eq_dec : EqDecision Byte.byte := Byte.byte_eq_dec.

Record block := mkBlock { hdr : bytes; body : bytes }.

Definition marshalBlock (b : option block) : bytes * error :=
  match b with
  | None => ([Byte.x6e; Byte.x75; Byte.x6c; Byte.x6c], None)
  | Some b => (hdr b ++ body b, None)
  end.

Definition sign (sk : N) (m : bytes) : (N * bytes) * error := ((sk, m), None).

Definition verify (pk : N) (m : bytes) (s : N * bytes) : error :=
  if decide (s = (pk, m)) then None else Some 1%nat.

Definition valid (b : option block) : bool :=
  match b with Some b => bool_decide (body b ≠ []) | None => false end.

Definition collaborators : Collaborators := {|
  TrBlock := block;
  TrHeader := bytes;
  Header := hdr;
  Private := N;
  Public := N;
  SchnorrSig := N * bytes;
  jsonMarshalBlock := marshalBlock;
  jsonMarshalHeader := λ h, (h, None);
  SignSchnorr := sign;
  VerifySchnorr := verify;
  VerifyBlock := valid
|}.



Definition keys (id : TreeNodeID) : N * N := (id, id).

(** A valid block whose header differs from its full encoding. *)
Definition blk : block := mkBlock [Byte.x68] [Byte.x62].


(** Root 0 over 1 over leaf 2. *)
Definition chain3 : tree := T 0%N [T 1%N [T 2%N []]].

(** Root 0 with the two leaves 1 and 2. *)
Definition star3 : tree := T 0%N [T 1%N []; T 2%N []].

(** A balanced binary tree of seven nodes. *)
Definition binary7 : tree :=
  T 0%N [T 1%N [T 3%N []; T 4%N []]; T 2%N [T 5%N []; T 6%N []]].

#[local] Existing Instance collaborators.

(** The honest round over [star3] and over [chain3], first come first
    served, after [n] deliveries. *)
Definition star3_run (n : nat) : network :=
  round keys star3 (Some blk) (replicate n 0%nat).

Definition chain3_run (n : nat) : network :=
  round keys chain3 (Some blk) (replicate n 0%nat).

(** Leaf 1 of [star3] holding the block, before any verification. *)
Definition leaf1 : Ntree :=
  set_block (Some blk)
    (NewNtreeProtocol 1%N (Some 0%N) [] [0%N; 1%N; 2%N] 1%N 1%N).

(** The encoding of [blk] and the signatures of the three participants over
    it. *)
Definition payload1 : bytes := [Byte.x68; Byte.x62].

Definition sig_of (id : N) : N * bytes := (id, payload1).

(** A bundle with two refusals and no signature. *)
Definition refusals : NaiveBlockSignature :=
  mkNaiveBlockSignature [] [mkException 1%N; mkException 2%N].

(** The bundle of leaf 2 alone. *)
Definition bundle2 : NaiveBlockSignature := mkNaiveBlockSignature [sig_of 2%N] [].

(** The bundle of leaf 1 alone. *)
Definition bundle1 : NaiveBlockSignature := mkNaiveBlockSignature [sig_of 1%N] [].

(** The root of [star3] once started: the block is valid and its
    verification result is pending. *)
Definition root_started : Ntree :=
  set_verifyBlockChan [true]
    (RegisterOnDone
       (NewNTreeRootProtocol 0%N None [1%N; 2%N] [0%N; 1%N; 2%N] 0%N 0%N (Some blk))).

(** The root after it has taken the bundle of leaf 1 and then that of
    leaf 2, and what it sent meanwhile. *)
Definition root_merged : Ntree :=
  match listenAll (BlockSignature <$> [bundle1; bundle2]) root_started with
  | Ret _ nt _ | Blocked nt _ | Panic nt _ => nt
  end.

Definition root_sent : list event :=
  match listenAll (BlockSignature <$> [bundle1; bundle2]) root_started with
  | Ret _ _ out | Blocked _ out | Panic _ out => out
  end.

(** The root of [star3] waiting for the last of its two phase-2 bundles,
    its own bundle verification having rejected the round. *)
Definition root_last : Ntree :=
  set_verifySignatureRequestChan [false]
    (set_tempSignatureResponseReceived 1
       (set_verifyBlockChan [] root_started)).


(** The encoding of the header of [blk]. *)
Definition payload2 : bytes := [Byte.x68].



End Toy.

(** * The client simulation

    [src/byzcoin_lib/protocol/client.go].  The client reads transactions
    from block files and hands them to a block server.  The parser of the
    [blockchain] package and the server behind the [BlockServer] interface
    are collaborators: [Parse] stands for [blockchain.NewParser] followed by
    [parser.Parse] (the error of [NewParser] is overwritten before it is
    looked at), [AddTransaction] for the method of the server. *)

Module Client.

(** A Go [error] with its message; [None] is [nil]. *)
Definition error := option string.

Definition magicNum : list Byte.byte := [Byte.xf9; Byte.xbe; Byte.xb4; Byte.xd9].

Definition ReadFirstNBlocks : Z := 66000.

Inductive logline :=
| Lvl2Trigger (nTxs : Z)
| ErrorParse (blocksPath : string)
| ErrorReadOnly (read wanted : Z).

Section Client.
Context {Tx BlockServer : Type}.
Variable Parse : string → list Byte.byte → Z → Z → list Tx * error.
Variable AddTransaction : Tx → BlockServer → BlockServer.

(** [for _, tr := range transactions { c.srv.AddTransaction(tr) }] *)
Definition addEach (transactions : list Tx) (srv : BlockServer) : BlockServer :=
  foldl (λ srv tr, AddTransaction tr srv) srv transactions.

(** [for consumed > 0 { ...; consumed-- }]; the fuel bounds the number of
    iterations. *)
Fixpoint consume (fuel : nat) (consumed : Z) (transactions : list Tx)
    (srv : BlockServer) : BlockServer :=
  match fuel with
  | O => srv
  | S fuel' =>
      if bool_decide (consumed > 0)
      then consume fuel' (int_add consumed (-1)) transactions (addEach transactions srv)
      else srv
  end.

(** [triggerTransactions]: the error returned, the server afterwards and
    what was logged. *)
Definition triggerTransactions (blocksPath : string) (nTxs : Z) (srv : BlockServer)
    : error * BlockServer * list logline :=
  let '(transactions, err) := Parse blocksPath magicNum 0 ReadFirstNBlocks in
  if bool_decide (len transactions = 0)
  then (Some "Couldn't read any transactions."%string, srv, [Lvl2Trigger nTxs])
  else
    match err with
    | Some e => (Some e, srv, [Lvl2Trigger nTxs; ErrorParse blocksPath])
    | None =>
        let warn := if bool_decide (len transactions < nTxs)
                    then [ErrorReadOnly (len transactions) nTxs] else [] in
        let consumed := if bool_decide (len transactions < nTxs)
                        then len transactions else nTxs in
        (None, consume (Z.to_nat consumed) consumed transactions srv,
         Lvl2Trigger nTxs :: warn)
    end.

(** [StartClientSimulation] *)
Definition StartClientSimulation (blocksDir : string) (numTxs : Z) (srv : BlockServer)
    : error * BlockServer * list logline :=
  triggerTransactions blocksDir numTxs srv.

End Client.

(** A parser that finds three transactions, one that finds them and reports
    an error as well, and one that finds none and reports an error; a server
    that keeps what it is given in the order it is given. *)
Definition three (_ : string) (_ : list Byte.byte) (_ _ : Z) : list nat * error :=
  ([1%nat; 2%nat; 3%nat], None).

Definition three_failing (_ : string) (_ : list Byte.byte) (_ _ : Z) : list nat * error :=
  ([1%nat; 2%nat; 3%nat], Some "truncated block file"%string).

Definition none_failing (_ : string) (_ : list Byte.byte) (_ _ : Z) : list nat * error :=
  ([], Some "no such directory"%string).

Definition keep (tr : nat) (srv : list nat) : list nat := srv ++ [tr].

End Client.

(** * Twisted Edwards curve points

    [src/vendor/gopkg.in/dedis/crypto.v0/edwards/basic.go] and [ext.go]: the
    points of a twisted Edwards curve a x^2 + y^2 = 1 + d x^2 y^2 in affine
    coordinates ([basicPoint]) and in extended coordinates ([extPoint]).

    The coordinates are [nist.Int] values, integers modulo the prime of the
    curve.  The [nist] package is not among the sources: its arithmetic is
    taken as the arithmetic of a field, with the methods of [nist.Int] as
    the operations ([NistInt]).  Every point holds a pointer to its curve,
    which the methods copy from their arguments; the curve is made explicit
    where a method reads its parameters.  The methods write their result
    into the receiver after they have read their arguments into temporaries,
    so a call whose receiver is also an argument behaves as the function of
    the values does. *)

Module Edwards.

Class NistInt := {
  Int : Type;
  Int0 : Int;
  Int1 : Int;
  IntAdd : Int → Int → Int;
  IntMul : Int → Int → Int;
  IntSub : Int → Int → Int;
  IntNeg : Int → Int;
  IntDiv : Int → Int → Int;
  IntInv : Int → Int;
  IntEqual : Int → Int → bool;
  Int_field : field_theory Int0 Int1 IntAdd IntMul IntSub IntNeg IntDiv IntInv eq;
  IntEqual_eq : ∀ x y, IntEqual x y = true ↔ x = y
}.

Declare Scope nist_scope.
Delimit Scope nist_scope with nist.
Infix "+" := IntAdd : nist_scope.
Infix "*" := IntMul : nist_scope.
Infix "-" := IntSub : nist_scope.
Infix "/" := IntDiv : nist_scope.
Notation "- x" := (IntNeg x) : nist_scope.

Section Curve.
Context `{NI : NistInt}.
Local Open Scope nist_scope.

(** The parameters of the generic [curve] that the point methods read, and
    the coordinates of the standard base point. *)
Record curve := mkCurve { a : Int; d : Int; baseX : Int; baseY : Int }.

(** The curve equation, for affine coordinates. *)
Definition onCurve (c : curve) (x y : Int) : Prop :=
  a c * (x * x) + y * y = Int1 + d c * (x * x) * (y * y).

(** The scalar multiplication loop shared by both representations:
    [for i := v.BitLen() - 1; i >= 0; i-- { T.double(); if v.Bit(i) != 0
    { T.Add(T, G) } }], with [i] bits still to go. *)
Fixpoint mulLoop {P : Type} (double : P → P) (Add : P → P → P)
    (v : N) (G : P) (i : nat) (T : P) : P :=
  match i with
  | O => T
  | S i' =>
      let T := double T in
      let T := if N.testbit v (N.of_nat i') then Add T G else T in
      mulLoop double Add v G i' T
  end.

End Curve.

(** ** Affine coordinates: [basicPoint] *)

Module Basic.
Section Basic.
Context `{NI : NistInt}.
Local Open Scope nist_scope.

Record basicPoint := mkPoint { x : Int; y : Int }.

Definition initXY (x y : Int) : basicPoint := mkPoint x y.

Definition getXY (P : basicPoint) : Int * Int := (x P, y P).

Definition Equal (P P2 : basicPoint) : bool :=
  IntEqual (x P) (x P2) && IntEqual (y P) (y P2).

(** [Set] *)
Definition Set_ (P2 : basicPoint) : basicPoint := mkPoint (x P2) (y P2).

(** The neutral element (0,1). *)
Definition null : basicPoint := initXY Int0 Int1.

Definition Null : basicPoint := Set_ null.

Definition Base (c : curve) : basicPoint := Set_ (initXY (baseX c) (baseY c)).

Definition Add (c : curve) (P1 P2 : basicPoint) : basicPoint :=
  let x1 := x P1 in let y1 := y P1 in
  let x2 := x P2 in let y2 := y P2 in
  let dm := (((d c * x1) * x2) * y1) * y2 in
  let nx := (x1 * y2) + (x2 * y1) in
  let dx := Int1 + dm in
  let ny := (y1 * y2) - (a c * (x1 * x2)) in
  let dy := Int1 - dm in
  mkPoint (nx / dx) (ny / dy).

Definition double (c : curve) (P : basicPoint) : basicPoint := Add c P P.

Definition Neg (A : basicPoint) : basicPoint := mkPoint (- x A) (y A).

Definition Sub (c : curve) (A B : basicPoint) : basicPoint := Add c A (Neg B).

(** [Mul]: [G] is [None] for a nil point, which stands for the base point;
    [v] is the value of the scalar. *)
Definition Mul (c : curve) (G : option basicPoint) (v : N) : basicPoint :=
  let G := match G with None => Base c | Some G => G end in
  Set_ (mulLoop (double c) (Add c) v G (N.to_nat (N.size v)) (Set_ null)).

End Basic.
End Basic.

(** ** Extended coordinates: [extPoint] *)

Module Ext.
Section Ext.
Context `{NI : NistInt}.
Local Open Scope nist_scope.

Record extPoint := mkPoint { X : Int; Y : Int; Z : Int; T : Int }.

Definition initXY (x y : Int) : extPoint := mkPoint x y Int1 (x * y).

Definition normalize (P : extPoint) : extPoint :=
  let Z := IntInv (Z P) in
  let X := X P * Z in
  let Y := Y P * Z in
  mkPoint X Y Int1 (X * Y).

Definition getXY (P : extPoint) : Int * Int :=
  let P := normalize P in (X P, Y P).

Definition Equal (P1 P2 : extPoint) : bool :=
  let xeq := IntEqual (X P1 * Z P2) (X P2 * Z P1) in
  let yeq := IntEqual (Y P1 * Z P2) (Y P2 * Z P1) in
  xeq && yeq.

(** [Set] *)
Definition Set_ (P2 : extPoint) : extPoint := mkPoint (X P2) (Y P2) (Z P2) (T P2).

Definition Clone (P : extPoint) : extPoint := mkPoint (X P) (Y P) (Z P) (T P).

Definition null : extPoint := initXY Int0 Int1.

Definition Null : extPoint := Set_ null.

Definition Base (c : curve) : extPoint := Set_ (initXY (baseX c) (baseY c)).

(** [checkT] panics unless this holds. *)
Definition checkT (P : extPoint) : bool := IntEqual (X P * Y P) (Z P * T P).

Definition Add (c : curve) (P1 P2 : extPoint) : extPoint :=
  let A := X P1 * X P2 in
  let B := Y P1 * Y P2 in
  let C := (T P1 * T P2) * d c in
  let D := Z P1 * Z P2 in
  let E := (((X P1 + Y P1) * (X P2 + Y P2)) - A) - B in
  let F := D - C in
  let G := D + C in
  let H := B - (a c * A) in
  mkPoint (E * F) (G * H) (F * G) (E * H).

Definition Sub (c : curve) (P1 P2 : extPoint) : extPoint :=
  let A := X P1 * X P2 in
  let B := Y P1 * Y P2 in
  let C := (T P1 * T P2) * d c in
  let D := Z P1 * Z P2 in
  let E := (((X P1 + Y P1) * (Y P2 - X P2)) + A) - B in
  let F := D + C in
  let G := D - C in
  let H := B + (a c * A) in
  mkPoint (E * F) (G * H) (F * G) (E * H).

Definition Neg (A : extPoint) : extPoint := mkPoint (- X A) (Y A) (Z A) (- T A).

Definition double (c : curve) (P : extPoint) : extPoint :=
  let A := X P * X P in
  let B := Y P * Y P in
  let C := (Z P * Z P) + (Z P * Z P) in
  let D := a c * A in
  let E := (((X P + Y P) * (X P + Y P)) - A) - B in
  let G := D + B in
  let F := G - C in
  let H := D - B in
  mkPoint (E * F) (G * H) (F * G) (E * H).

Definition Mul (c : curve) (G : option extPoint) (v : N) : extPoint :=
  let G := match G with None => Base c | Some G => G end in
  Set_ (mulLoop (double c) (Add c) v G (N.to_nat (N.size v)) (Set_ null)).

End Ext.
End Ext.

(** The rationals as a field of coordinates, and the curve
    x^2 + y^2 = 1 + 2 x^2 y^2 with base point (1,0). *)
#[export] Instance Qc_eq_dec : EqDecision Qcanon.Qc := Qcanon.Qc_eq_dec.

Definition qc (n : Z) : Qcanon.Qc := Qcanon.Q2Qc (QArith_base.inject_Z n).

Definition rationals : NistInt := {|
  Int := Qcanon.Qc;
  Int0 := qc 0;
  Int1 := qc 1;
  IntAdd := Qcanon.Qcplus;
  IntMul := Qcanon.Qcmult;
  IntSub := Qcanon.Qcminus;
  IntNeg := Qcanon.Qcopp;
  IntDiv := Qcanon.Qcdiv;
  IntInv := Qcanon.Qcinv;
  IntEqual := λ x y, bool_decide (x = y);
  Int_field := Qcanon.Qcft;
  IntEqual_eq := λ x y, bool_decide_eq_true (x = y)
|}.

Definition circle2 : @curve rationals := @mkCurve rationals (qc 1) (qc 2) (qc 1) (qc 0).

End Edwards.

(** * Properties *)

Section Properties.
Context `{C : Collaborators}.

(** ** Machine integers and the threshold *)

Lemma int_wrap_small z : - 2 ^ 63 <= z < 2 ^ 63 → int_wrap z = z.
Proof.
  intros Hz. unfold int_wrap.
  rewrite Z.mod_small by lia. lia.
Qed.

Lemma len_nonneg {A} (l : list A) : 0 <= len l.
Proof. unfold len. lia. Qed.

Lemma len_app {A} (l k : list A) : len (l ++ k) = len l + len k.
Proof. unfold len. rewrite length_app. lia. Qed.

Lemma len_cons {A} (x : A) (l : list A) : len (x :: l) = 1 + len l.
Proof. unfold len. cbn [length]. lia. Qed.

Lemma ceil_third_spec n : ceil_third n = (Z.of_nat n + 2) / 3.
Proof.
  induction n as [n IH] using lt_wf_ind.
  destruct n as [|[|[|n]]]; try reflexivity.
  cbn [ceil_third]. rewrite IH by lia.
  replace (Z.of_nat (S (S (S n))) + 2) with (Z.of_nat n + 2 + 1 * 3) by lia.
  rewrite Z.div_add by lia. lia.
Qed.

Lemma threshold_ceil (nt : Ntree) :
  threshold nt = ceil_third (length (TreeList nt)).
Proof. unfold threshold, len. by rewrite ceil_third_spec. Qed.

(** [f] is the least integer with [N <= 3 f]. *)
Lemma threshold_bounds (nt : Ntree) :
  3 * (threshold nt - 1) < len (TreeList nt) <= 3 * threshold nt.
Proof.
  unfold threshold. generalize (len_nonneg (TreeList nt)).
  generalize (len (TreeList nt)). intros n Hn.
  pose proof (Z.div_mod (n + 2) 3 ltac:(lia)) as Hd.
  pose proof (Z.mod_pos_bound (n + 2) 3 ltac:(lia)) as Hm.
  lia.
Qed.

(** ** The signature count of the bundle verification *)

Lemma goodSig_fold pk m (sigs : list SchnorrSig) acc :
  0 <= acc → acc + len sigs < 2 ^ 63 →
  fold_left (λ good sig,
               match VerifySchnorr pk m sig with
               | None => int_add good 1
               | Some _ => good
               end) sigs acc
  = acc + len (filter (λ sig, VerifySchnorr pk m sig = None) sigs).
Proof.
  revert acc. induction sigs as [|s sigs IH]; intros acc Hacc Hlt.
  - cbn. unfold len. cbn. lia.
  - unfold len in Hlt. cbn [length] in Hlt. cbn [fold_left].
    rewrite filter_cons. destruct (VerifySchnorr pk m s) as [e|] eqn:Hv.
    + rewrite decide_False by done. apply IH; unfold len; lia.
    + rewrite decide_True by done.
      unfold int_add. rewrite int_wrap_small by lia.
      rewrite IH by (unfold len; lia). unfold len. cbn [length]. lia.
Qed.

Lemma goodSig_count (nt : Ntree) (msg : NaiveBlockSignature) :
  len (Sigs msg) < 2 ^ 63 →
  goodSig nt msg = len (verified nt msg).
Proof.
  intros Hlt. unfold goodSig, verified.
  rewrite goodSig_fold by lia. lia.
Qed.

(** ** The acceptance rule *)

Lemma ThresholdPolicy_true participants exceptions good :
  ThresholdPolicy participants exceptions good = true
  ↔ Z.of_nat exceptions <= ceil_third participants
    ∧ 2 * ceil_third participants < Z.of_nat good.
Proof.
  unfold ThresholdPolicy. repeat case_bool_decide; split; intros; try done; lia.
Qed.

Lemma verifySignatureRequest_head (nt : Ntree) (msg : NaiveBlockSignature) :
  len (Sigs msg) < 2 ^ 63 → len (TreeList nt) < 2 ^ 63 →
  head (verifySignatureRequest nt msg)
  = Some (ThresholdPolicy (length (TreeList nt)) (length (Exceptions msg))
                          (length (verified nt msg))).
Proof.
  intros Hs Hn. unfold verifySignatureRequest, ThresholdPolicy.
  rewrite goodSig_count by done. rewrite <- threshold_ceil.
  pose proof (threshold_bounds nt) as Hb.
  unfold int_mul. rewrite int_wrap_small.
  - unfold len. repeat case_bool_decide; try done; lia.
  - pose proof (len_nonneg (TreeList nt)).
    change (2 ^ 63) with 9223372036854775808 in *. lia.
Qed.


(** One boolean is offered exactly when the round is accepted; a rejected
    round offers [false] and goes on to offer more. *)
Lemma verifySignatureRequest_single (nt : Ntree) (msg : NaiveBlockSignature) :
  length (verifySignatureRequest nt msg) = 1%nat
  ↔ head (verifySignatureRequest nt msg) = Some true.
Proof.
  unfold verifySignatureRequest. by repeat case_bool_decide.
Qed.


(** ** Merging bundles *)

Lemma merge_assoc (a b c : NaiveBlockSignature) :
  merge (merge a b) c = merge a (merge b c).
Proof. unfold merge. cbn. by rewrite !app_assoc. Qed.

Lemma foldl_merge_Sigs (b0 : NaiveBlockSignature) (l : list NaiveBlockSignature) :
  Sigs (foldl merge b0 l) = Sigs b0 ++ concat (map Sigs l).
Proof.
  revert b0. induction l as [|b l IH]; intros b0; cbn.
  - by rewrite app_nil_r.
  - rewrite IH. cbn. by rewrite app_assoc.
Qed.

Lemma foldl_merge_Exceptions (b0 : NaiveBlockSignature) (l : list NaiveBlockSignature) :
  Exceptions (foldl merge b0 l) = Exceptions b0 ++ concat (map Exceptions l).
Proof.
  revert b0. induction l as [|b l IH]; intros b0; cbn.
  - by rewrite app_nil_r.
  - rewrite IH. cbn. by rewrite app_assoc.
Qed.

Lemma concat_map_Permutation {A B} (f : A → list B) (l l' : list A) :
  l ≡ₚ l' → concat (map f l) ≡ₚ concat (map f l').
Proof.
  induction 1 as [|x l l' _ IH|x y l|l l' l'' _ IH1 _ IH2]; cbn.
  - done.
  - by rewrite IH.
  - rewrite !app_assoc. f_equiv. apply Permutation_app_comm.
  - by rewrite IH1.
Qed.

(** ** The key of the bundle verification *)

(** C10: the bundle verification counts the signatures that verify under
    the verifying node's own public key.  When the primitive is sound, in
    that a signature made with a private key verifies under no public key
    but the one that belongs to it, a signature made with the key of another
    participant adds nothing to the count. *)
Theorem goodSig_own_key (nt : Ntree) (msg : NaiveBlockSignature)
    (pub_of : Private → Public) (sk : Private) (payload : bytes) (sig : SchnorrSig) :
  len (Sigs msg) < 2 ^ 63 - 1 →
  (∀ sk m s pk m', SignSchnorr sk m = (s, None) → pk ≠ pub_of sk →
                   VerifySchnorr pk m' s ≠ None) →
  SignSchnorr sk payload = (sig, None) →
  pub_of sk ≠ public nt →
  goodSig nt msg
  = len (filter (λ s, VerifySchnorr (public nt) (jsonMarshalBlock (block nt)).1 s = None)
                (Sigs msg))
  ∧ goodSig nt (add_sig sig msg) = goodSig nt msg.
Proof.
  intros Hlen Hsound Hsig Hpk. split.
  - apply goodSig_count. lia.
  - rewrite (goodSig_count nt msg) by lia.
    rewrite (goodSig_count nt (add_sig sig msg))
      by (cbn [add_sig Sigs]; rewrite len_app; unfold len in *; cbn [length]; lia).
    unfold verified, add_sig. cbn [Sigs].
    rewrite filter_app, filter_cons, filter_nil.
    rewrite decide_False by (eapply Hsound; [exact Hsig|congruence]).
    by rewrite app_nil_r.
Qed.

(** ** The contribution steps *)


Lemma computeBlockSignature_error (nt : Ntree) ok q :
  verifyBlockChan nt = ok :: q →
  (jsonMarshalBlock (block nt)).2 ≠ None →
  computeBlockSignature nt = Ret tt (set_verifyBlockChan q nt) [LogError].
Proof.
  intros Hq Herr. unfold computeBlockSignature, bind, recv_verifyBlockChan, get.
  rewrite Hq. cbn.
  destruct (jsonMarshalBlock (block nt)) as [m [e|]]; cbn in *; done.
Qed.

Lemma computeBlockSignature_except (nt : Ntree) q :
  verifyBlockChan nt = false :: q →
  (jsonMarshalBlock (block nt)).2 = None →
  computeBlockSignature nt
  = Ret tt (set_tempBlockSig (add_exception (mkException (nodeID nt)) (tempBlockSig nt))
              (set_verifyBlockChan q nt)) [].
Proof.
  intros Hq Herr. unfold computeBlockSignature, bind, recv_verifyBlockChan, get.
  rewrite Hq. cbn.
  destruct (jsonMarshalBlock (block nt)) as [m [e|]]; cbn in *; done.
Qed.

Lemma computeBlockSignature_sign (nt : Ntree) q :
  verifyBlockChan nt = true :: q →
  (jsonMarshalBlock (block nt)).2 = None →
  computeBlockSignature nt
  = Ret tt (set_tempBlockSig
              (add_sig (SignSchnorr (private nt) (jsonMarshalBlock (block nt)).1).1
                       (tempBlockSig nt))
              (set_verifyBlockChan q nt)) [].
Proof.
  intros Hq Herr. unfold computeBlockSignature, bind, recv_verifyBlockChan, get.
  rewrite Hq. cbn.
  destruct (jsonMarshalBlock (block nt)) as [m [e|]]; cbn in *; [done|].
  by destruct (SignSchnorr (private nt) m).
Qed.


Lemma computeSignatureResponse_except (nt : Ntree) q :
  verifySignatureRequestChan nt = false :: q →
  computeSignatureResponse nt
  = Ret tt (set_tempSignatureResponse
              (add_exception (mkException (nodeID nt)) (tempSignatureResponse nt))
              (set_verifySignatureRequestChan q nt)) [].
Proof.
  intros Hq. unfold computeSignatureResponse, bind, recv_verifySignatureRequestChan.
  by rewrite Hq.
Qed.

Lemma computeSignatureResponse_sign (nt : Ntree) q b payload sig :
  verifySignatureRequestChan nt = true :: q →
  block nt = Some b →
  jsonMarshalHeader (Header b) = (payload, None) →
  SignSchnorr (private nt) payload = (sig, None) →
  computeSignatureResponse nt
  = Ret tt (set_tempSignatureResponse (add_sig sig (tempSignatureResponse nt))
              (set_verifySignatureRequestChan q nt)) [].
Proof.
  intros Hq Hb Hm Hs.
  unfold computeSignatureResponse, bind, recv_verifySignatureRequestChan, get.
  rewrite Hq. cbn. rewrite Hb, Hm. cbn. by rewrite Hs.
Qed.

Lemma computeSignatureResponse_sign_error (nt : Ntree) q b payload sig e :
  verifySignatureRequestChan nt = true :: q →
  block nt = Some b →
  jsonMarshalHeader (Header b) = (payload, None) →
  SignSchnorr (private nt) payload = (sig, Some e) →
  computeSignatureResponse nt = Ret tt (set_verifySignatureRequestChan q nt) [].
Proof.
  intros Hq Hb Hm Hs.
  unfold computeSignatureResponse, bind, recv_verifySignatureRequestChan, get.
  rewrite Hq. cbn. rewrite Hb, Hm. cbn. by rewrite Hs.
Qed.

Lemma computeSignatureResponse_encode_error (nt : Ntree) q b payload e :
  verifySignatureRequestChan nt = true :: q →
  block nt = Some b →
  jsonMarshalHeader (Header b) = (payload, Some e) →
  computeSignatureResponse nt = Ret tt (set_verifySignatureRequestChan q nt) [LogError].
Proof.
  intros Hq Hb Hm.
  unfold computeSignatureResponse, bind, recv_verifySignatureRequestChan, get.
  rewrite Hq. cbn. by rewrite Hb, Hm.
Qed.

Lemma computeSignatureResponse_nil_block (nt : Ntree) q :
  verifySignatureRequestChan nt = true :: q →
  block nt = None →
  computeSignatureResponse nt = Panic (set_verifySignatureRequestChan q nt) [].
Proof.
  intros Hq Hb.
  unfold computeSignatureResponse, bind, recv_verifySignatureRequestChan, get.
  rewrite Hq. cbn. by rewrite Hb.
Qed.

Lemma size_add_sig (s : SchnorrSig) (b : NaiveBlockSignature) :
  size (add_sig s b) = S (size b).
Proof. unfold size, add_sig. cbn. rewrite length_app. cbn. lia. Qed.

Lemma size_add_exception (e : Exception) (b : NaiveBlockSignature) :
  size (add_exception e b) = S (size b).
Proof. unfold size, add_exception. cbn. rewrite length_app. cbn. lia. Qed.

Lemma size_merge (a b : NaiveBlockSignature) : size (merge a b) = (size a + size b)%nat.
Proof. unfold size, merge. cbn. rewrite !length_app. lia. Qed.

(** What a phase-1 step that receives [ok] and encodes the block without
    error appends. *)
Lemma computeBlockSignature_adds_one (nt : Ntree) ok q :
  verifyBlockChan nt = ok :: q →
  (jsonMarshalBlock (block nt)).2 = None →
  ∃ item,
    computeBlockSignature nt
    = Ret tt (set_tempBlockSig (item (tempBlockSig nt)) (set_verifyBlockChan q nt)) []
    ∧ item = (if ok
              then add_sig (SignSchnorr (private nt) (jsonMarshalBlock (block nt)).1).1
              else add_exception (mkException (nodeID nt)))
    ∧ ∀ bundle, size (item bundle) = S (size bundle).
Proof.
  intros Hq Herr. destruct ok.
  - eexists. split; [by apply computeBlockSignature_sign|].
    split; [done|]. intros. apply size_add_sig.
  - eexists. split; [by apply computeBlockSignature_except|].
    split; [done|]. intros. apply size_add_exception.
Qed.

(** What a phase-2 step that receives [ok] appends: an exception when [ok]
    is false, and a signature over the header when it is true and the
    header is encoded and signed without error. *)
Lemma computeSignatureResponse_adds_one (nt : Ntree) ok q b payload sig :
  verifySignatureRequestChan nt = ok :: q →
  ok = false ∨ (block nt = Some b ∧ jsonMarshalHeader (Header b) = (payload, None)
                ∧ SignSchnorr (private nt) payload = (sig, None)) →
  ∃ item,
    computeSignatureResponse nt
    = Ret tt (set_tempSignatureResponse (item (tempSignatureResponse nt))
                (set_verifySignatureRequestChan q nt)) []
    ∧ item = (if ok then add_sig sig else add_exception (mkException (nodeID nt)))
    ∧ ∀ bundle, size (item bundle) = S (size bundle).
Proof.
  intros Hq Hok. destruct ok.
  - destruct Hok as [|(Hb & Hm & Hs)]; [done|].
    eexists. split; [by eapply computeSignatureResponse_sign|].
    split; [done|]. intros. apply size_add_sig.
  - eexists. split; [by apply computeSignatureResponse_except|].
    split; [done|]. intros. apply size_add_exception.
Qed.




(** ** What the aggregation handlers send *)

Lemma sendToChildren_events (tns : list TreeNodeID) (m : Msg) (nt : Ntree) :
  sendToChildren tns m nt = Ret tt nt ((λ tn, SendTo (Some tn) m) <$> tns).
Proof.
  induction tns as [|tn tns IH]; [done|].
  cbn [sendToChildren]. unfold bind, emit. by rewrite IH.
Qed.

Ltac run_handler :=
  unfold bind, modify, get, emit, ret, panic,
    recv_verifyBlockChan, recv_verifySignatureRequestChan,
    go_verifySignatureRequest in *;
  cbn in *;
  repeat (case_match; cbn in *; simplify_eq; try done).

Ltac sent_event Hin :=
  repeat first
    [ rewrite sendToChildren_events in *
    | progress simplify_eq
    | apply list_elem_of_fmap in Hin as (? & ? & ?)
    | apply elem_of_cons in Hin as [Hin|Hin]
    | apply elem_of_nil in Hin ];
  try done.

(** Phase 1, any node but the root: what goes to the parent is the node's
    own merged bundle. *)
Lemma handleBlockSignature_sends_merged (nt nt' : Ntree) msg out to m :
  handleBlockSignature msg nt = Ret tt nt' out →
  SendTo to (BlockSignature m) ∈ out →
  to = Parent nt ∧ m = tempBlockSig nt'.
Proof.
  unfold handleBlockSignature, computeBlockSignature, startSignatureRequest.
  intros Hrun Hin. run_handler; sent_event Hin.
Qed.

(** Phase 1, root: the request that goes down carries the message that was
    just received. *)
Lemma handleBlockSignature_request (nt nt' : Ntree) msg out to m :
  handleBlockSignature msg nt = Ret tt nt' out →
  SendTo to (RoundSignatureRequest m) ∈ out →
  m = msg.
Proof.
  unfold handleBlockSignature, computeBlockSignature, startSignatureRequest.
  intros Hrun Hin. run_handler; sent_event Hin.
Qed.

(** Phase 2, any node but the root: what goes to the parent is the message
    that was just received. *)
Lemma handleRoundSignatureResponse_sends_msg (nt nt' : Ntree) msg out to m :
  handleRoundSignatureResponse msg nt = Ret tt nt' out →
  SendTo to m ∈ out →
  to = Parent nt ∧ m = RoundSignatureResponse msg.
Proof.
  unfold handleRoundSignatureResponse, computeSignatureResponse.
  intros Hrun Hin. run_handler; sent_event Hin.
Qed.

(** ** Aggregation, handler by handler *)

(** While bundles of children are outstanding a handler merges and counts. *)
Lemma handleBlockSignature_waiting (nt : Ntree) msg :
  int_add (tempBlockSigReceived nt) 1 < len (Children nt) →
  handleBlockSignature msg nt
  = Ret tt (set_tempBlockSigReceived (int_add (tempBlockSigReceived nt) 1)
              (set_tempBlockSig (merge (tempBlockSig nt) msg) nt)) [].
Proof.
  intros Hlt. unfold handleBlockSignature, bind, modify, get, ret. cbn.
  by rewrite bool_decide_true.
Qed.

Lemma handleRoundSignatureResponse_waiting (nt : Ntree) msg :
  int_add (tempSignatureResponseReceived nt) 1 < len (Children nt) →
  handleRoundSignatureResponse msg nt
  = Ret tt (set_tempSignatureResponseReceived
              (int_add (tempSignatureResponseReceived nt) 1)
              (set_tempSignatureResponse (merge (tempSignatureResponse nt) msg) nt)) [].
Proof.
  intros Hlt. unfold handleRoundSignatureResponse, bind, modify, get, ret. cbn.
  by rewrite bool_decide_true.
Qed.

(** Phase 1, last child of a node that is not the root: the bundle that goes
    up is the merged one with the node's own item, one larger than what the
    node held and received together. *)
Lemma handleBlockSignature_complete (nt : Ntree) msg ok q :
  ¬ int_add (tempBlockSigReceived nt) 1 < len (Children nt) →
  IsRoot nt = false →
  verifyBlockChan nt = ok :: q →
  (jsonMarshalBlock (block nt)).2 = None →
  ∃ nt',
    handleBlockSignature msg nt
    = Ret tt nt' [SendTo (Parent nt) (BlockSignature (tempBlockSig nt'))]
    ∧ size (tempBlockSig nt') = S (size (tempBlockSig nt) + size msg).
Proof.
  intros Hge Hroot Hq Herr.
  unfold handleBlockSignature, bind, modify, get, ret. cbn.
  rewrite bool_decide_false by done.
  set (nt0 := set_tempBlockSigReceived _ _).
  destruct (computeBlockSignature_adds_one nt0 ok q Hq Herr)
    as (item & -> & _ & Hsize).
  unfold IsRoot in *. cbn. rewrite Hroot. unfold emit. cbn.
  exists (set_tempBlockSig (item (merge (tempBlockSig nt) msg)) (set_verifyBlockChan q nt0)).
  split; [reflexivity|]. cbn. by rewrite Hsize, size_merge.
Qed.

(** Phase 2, last child of a node that is not the root: the node's bundle is
    the merged one with the node's own item, and what goes up is the message
    of the last child, strictly smaller. *)
Lemma handleRoundSignatureResponse_complete (nt : Ntree) msg ok q b payload sig :
  ¬ int_add (tempSignatureResponseReceived nt) 1 < len (Children nt) →
  IsRoot nt = false →
  verifySignatureRequestChan nt = ok :: q →
  ok = false ∨ (block nt = Some b ∧ jsonMarshalHeader (Header b) = (payload, None)
                ∧ SignSchnorr (private nt) payload = (sig, None)) →
  ∃ nt',
    handleRoundSignatureResponse msg nt
    = Ret tt nt' [SendTo (Parent nt) (RoundSignatureResponse msg)]
    ∧ size (tempSignatureResponse nt') = S (size (tempSignatureResponse nt) + size msg)
    ∧ (size msg < size (tempSignatureResponse nt'))%nat.
Proof.
  intros Hge Hroot Hq Hok.
  unfold handleRoundSignatureResponse, bind, modify, get, ret. cbn.
  rewrite bool_decide_false by done.
  set (nt0 := set_tempSignatureResponseReceived _ _).
  destruct (computeSignatureResponse_adds_one nt0 ok q b payload sig Hq Hok)
    as (item & -> & _ & Hsize).
  unfold IsRoot in *. cbn. rewrite Hroot. unfold emit. cbn.
  eexists. split; [reflexivity|]. cbn. rewrite Hsize, size_merge. split; lia.
Qed.

(** Phase 1, last child of the root: the root's bundle is the merged one
    with the root's own item, and the request that goes down to every child
    carries the message of the last child, strictly smaller. *)
Lemma handleBlockSignature_root (nt : Ntree) msg ok q :
  ¬ int_add (tempBlockSigReceived nt) 1 < len (Children nt) →
  IsRoot nt = true →
  verifyBlockChan nt = ok :: q →
  (jsonMarshalBlock (block nt)).2 = None →
  ∃ nt',
    handleBlockSignature msg nt
    = Ret tt nt' ((λ tn, SendTo (Some tn) (RoundSignatureRequest msg)) <$> Children nt)
    ∧ size (tempBlockSig nt') = S (size (tempBlockSig nt) + size msg)
    ∧ (size msg < size (tempBlockSig nt'))%nat.
Proof.
  intros Hge Hroot Hq Herr.
  unfold handleBlockSignature, bind, modify, get, ret. cbn.
  rewrite bool_decide_false by done.
  set (nt0 := set_tempBlockSigReceived _ _).
  destruct (computeBlockSignature_adds_one nt0 ok q Hq Herr)
    as (item & -> & _ & Hsize).
  unfold IsRoot in *. cbn. rewrite Hroot.
  unfold startSignatureRequest, bind, go_verifySignatureRequest, modify, get. cbn.
  rewrite sendToChildren_events. cbn.
  eexists. split; [reflexivity|]. cbn. rewrite Hsize, size_merge. split; lia.
Qed.

(** ** The order of the children *)

(** The bundles of all children but the last: merged and counted. *)
Lemma listenAll_waiting (msgs : list NaiveBlockSignature) (nt : Ntree) :
  0 <= tempBlockSigReceived nt →
  tempBlockSigReceived nt + len msgs < len (Children nt) →
  len (Children nt) < 2 ^ 63 →
  listenAll (BlockSignature <$> msgs) nt
  = Ret tt (set_tempBlockSigReceived (tempBlockSigReceived nt + len msgs)
              (set_tempBlockSig (foldl merge (tempBlockSig nt) msgs) nt)) [].
Proof.
  revert nt. induction msgs as [|msg msgs IH]; intros nt H0 Hlt Hmax.
  - cbn. unfold ret, len. cbn. rewrite Z.add_0_r. by destruct nt.
  - rewrite len_cons in *. pose proof (len_nonneg msgs) as Hmsgs.
    assert (Hadd : int_add (tempBlockSigReceived nt) 1 = tempBlockSigReceived nt + 1).
    { unfold int_add. apply int_wrap_small. lia. }
    cbn [fmap list_fmap listenAll listen]. unfold bind.
    rewrite handleBlockSignature_waiting by (rewrite Hadd; lia).
    rewrite IH; cbn; rewrite ?Hadd; try lia.
    rewrite <- Z.add_assoc. reflexivity.
Qed.

(** The bundle of the last child: merged, and then the node's own step. *)
Lemma handleBlockSignature_last (nt : Ntree) msg :
  ¬ int_add (tempBlockSigReceived nt) 1 < len (Children nt) →
  match handleBlockSignature msg nt with
  | Ret _ nt1 _ =>
      ∃ ok q, verifyBlockChan nt = ok :: q
              ∧ tempBlockSig nt1 = phase1_item nt ok (merge (tempBlockSig nt) msg)
  | Blocked _ _ => verifyBlockChan nt = []
  | Panic _ _ => False
  end.
Proof.
  intros Hge.
  unfold handleBlockSignature, computeBlockSignature, startSignatureRequest, phase1_item.
  unfold bind, modify, get, ret, emit, recv_verifyBlockChan, go_verifySignatureRequest.
  cbn. rewrite bool_decide_false by done. cbn.
  destruct (verifyBlockChan nt) as [|ok q]; [done|]. cbn.
  destruct (jsonMarshalBlock (block nt)) as [m [e|]]; cbn.
  - destruct (IsRoot _); cbn; [rewrite sendToChildren_events|]; cbn; eauto.
  - destruct ok; cbn; [destruct (SignSchnorr (private nt) m) as [sig e]; cbn|];
      (destruct (IsRoot _); cbn; [rewrite sendToChildren_events|]; cbn; eauto).
Qed.

(** A node with no bundle counted yet takes one bundle from each child. *)
Lemma listenAll_children (nt : Ntree) (l : list NaiveBlockSignature) :
  tempBlockSigReceived nt = 0 →
  len l = len (Children nt) →
  l ≠ [] →
  len l < 2 ^ 63 →
  match listenAll (BlockSignature <$> l) nt with
  | Ret _ nt1 _ =>
      ∃ ok q, verifyBlockChan nt = ok :: q
              ∧ tempBlockSig nt1 = phase1_item nt ok (foldl merge (tempBlockSig nt) l)
  | Blocked _ _ => verifyBlockChan nt = []
  | Panic _ _ => False
  end.
Proof.
  intros H0 Hlen Hne Hmax.
  destruct (exists_last Hne) as (init & last & ->).
  rewrite len_app, len_cons in Hlen, Hmax. change (len (@nil NaiveBlockSignature)) with 0 in *.
  pose proof (len_nonneg init) as Hinit.
  rewrite fmap_app. cbn [fmap list_fmap].
  assert (Happ : ∀ ms ms' n, listenAll (ms ++ ms') n
                            = bind (listenAll ms) (λ _, listenAll ms') n).
  { clear. induction ms as [|m ms IH]; intros ms' n.
    - cbn. unfold bind, ret. by destruct (listenAll ms' n).
    - cbn [app listenAll]. unfold bind.
      destruct (listen m n) as [[] n1 o1|n1 o1|n1 o1]; [|done|done].
      rewrite IH. unfold bind.
      destruct (listenAll ms n1) as [[] n2 o2|n2 o2|n2 o2]; [|done|done].
      destruct (listenAll ms' n2); by rewrite app_assoc. }
  rewrite Happ. unfold bind at 1.
  rewrite listenAll_waiting by lia. cbn [listenAll listen]. unfold bind, ret.
  set (nt0 := set_tempBlockSigReceived _ _).
  pose proof (handleBlockSignature_last nt0 last) as Hlast.
  assert (Hge : ¬ int_add (tempBlockSigReceived nt0) 1 < len (Children nt0)).
  { subst nt0. cbn. unfold int_add. rewrite int_wrap_small by lia. lia. }
  specialize (Hlast Hge).
  destruct (handleBlockSignature last nt0) as [[] n1 o1|n1 o1|n1 o1]; [|done|done].
  destruct Hlast as (ok & q & Hq & Hb). exists ok, q. split; [exact Hq|].
  rewrite Hb. subst nt0. cbn. by rewrite foldl_app.
Qed.

Lemma phase1_item_Permutation (nt : Ntree) ok (b b' : NaiveBlockSignature) :
  Sigs b ≡ₚ Sigs b' → Exceptions b ≡ₚ Exceptions b' →
  Sigs (phase1_item nt ok b) ≡ₚ Sigs (phase1_item nt ok b')
  ∧ Exceptions (phase1_item nt ok b) ≡ₚ Exceptions (phase1_item nt ok b').
Proof.
  intros Hs He. unfold phase1_item.
  destruct (jsonMarshalBlock (block nt)).2; [done|].
  destruct ok; cbn; split; try done; by f_equiv.
Qed.

(** C9: merging is associative and commutative in content.  A node that
    takes the phase-1 bundles of its children in one order and returns also
    returns when it takes them in any other order, and ends with the same
    signatures and the same exceptions up to the order of the lists; its
    bundle is its own item added to the fold of [merge] over the bundles
    received. *)
Theorem merge_order_irrelevant (nt nt1 : Ntree) (out1 : list event)
    (l l' : list NaiveBlockSignature) :
  l ≡ₚ l' →
  tempBlockSigReceived nt = 0 →
  len l = len (Children nt) →
  l ≠ [] →
  len l < 2 ^ 63 →
  listenAll (BlockSignature <$> l) nt = Ret tt nt1 out1 →
  (∀ a b c, merge (merge a b) c = merge a (merge b c))
  ∧ (∀ a b, Sigs (merge a b) ≡ₚ Sigs (merge b a)
            ∧ Exceptions (merge a b) ≡ₚ Exceptions (merge b a))
  ∧ Sigs (foldl merge (tempBlockSig nt) l) ≡ₚ Sigs (foldl merge (tempBlockSig nt) l')
  ∧ Exceptions (foldl merge (tempBlockSig nt) l)
    ≡ₚ Exceptions (foldl merge (tempBlockSig nt) l')
  ∧ ∃ nt2 out2,
      listenAll (BlockSignature <$> l') nt = Ret tt nt2 out2
      ∧ Sigs (tempBlockSig nt1) ≡ₚ Sigs (tempBlockSig nt2)
      ∧ Exceptions (tempBlockSig nt1) ≡ₚ Exceptions (tempBlockSig nt2).
Proof.
  intros Hp H0 Hlen Hne Hmax Hrun.
  assert (HS : Sigs (foldl merge (tempBlockSig nt) l)
               ≡ₚ Sigs (foldl merge (tempBlockSig nt) l')).
  { rewrite !foldl_merge_Sigs. f_equiv. by apply concat_map_Permutation. }
  assert (HE : Exceptions (foldl merge (tempBlockSig nt) l)
               ≡ₚ Exceptions (foldl merge (tempBlockSig nt) l')).
  { rewrite !foldl_merge_Exceptions. f_equiv. by apply concat_map_Permutation. }
  split; [apply merge_assoc|]. split.
  { intros a b. cbn. split; apply Permutation_app_comm. }
  split; [exact HS|]. split; [exact HE|].
  pose proof (listenAll_children nt l H0 Hlen Hne Hmax) as H1.
  rewrite Hrun in H1. destruct H1 as (ok & q & Hq & Hb1).
  assert (Hlen' : len l' = len l).
  { unfold len. by rewrite (Permutation_length Hp). }
  assert (Hne' : l' ≠ []).
  { intros ->. apply Permutation_nil_r in Hp. done. }
  pose proof (listenAll_children nt l' H0 ltac:(lia) Hne' ltac:(lia)) as H2.
  destruct (listenAll (BlockSignature <$> l') nt) as [[] nt2 out2|nt2 out2|nt2 out2].
  - destruct H2 as (ok' & q' & Hq' & Hb2).
    assert (ok' = ok) as -> by congruence.
    exists nt2, out2. split; [done|]. rewrite Hb1, Hb2.
    by apply phase1_item_Permutation.
  - congruence.
  - done.
Qed.

End Properties.

(** * The protocol on concrete trees *)

Section Concrete.
#[local] Existing Instance Toy.collaborators.

(** Closed equations are settled by evaluating both sides. *)
Ltac by_eval :=
  lazymatch goal with
  | |- ?l = ?r => vm_cast_no_check (eq_refl r)
  | |- ?l ≠ ?r => let H := fresh in intros H; discriminate H
  end.

Ltac all_by_eval := cbv zeta; repeat apply conj; by_eval.

Lemma verifySignatureRequest_three_sends :
  verifySignatureRequest Toy.leaf1 Toy.refusals = [false; false; true].
Proof. by_eval. Qed.

(** C2: in the honest round over the star of three nodes the request that
    reaches leaf 1 makes its bundle verification offer two booleans on the
    result channel, [false] and then [true]; the contribution step receives
    the first and the second is still on offer when the round is over. *)
Theorem verifySignatureRequest_offers_two_booleans :
  inflight (Toy.star3_run 4)
  = [(1%N, RoundSignatureRequest Toy.bundle2); (2%N, RoundSignatureRequest Toy.bundle2)]
  ∧ (λ nt, verifySignatureRequest nt Toy.bundle2) <$> nodeAt (Toy.star3_run 4) 1%N
    = Some [false; true]
  ∧ inflight (Toy.star3_run 8) = []
  ∧ verifySignatureRequestChan <$> nodeAt (Toy.star3_run 8) 1%N = Some [true].
Proof. all_by_eval. Qed.

(** C3: in the honest round over the chain of three nodes, node 1 receives
    the phase-2 bundle of its only child, merges it, adds its own
    contribution, and sends to the root the child's bundle, not the merged
    one. *)
Theorem response_forwards_child_bundle :
  let child := mkNaiveBlockSignature [] [mkException 2%N] in
  let merged := mkNaiveBlockSignature [] [mkException 2%N; mkException 1%N] in
  inflight (Toy.chain3_run 6) = [(1%N, RoundSignatureResponse child)]
  ∧ inflight (Toy.chain3_run 7) = [(0%N, RoundSignatureResponse child)]
  ∧ tempSignatureResponse <$> nodeAt (Toy.chain3_run 7) 1%N = Some merged
  ∧ child ≠ merged.
Proof. all_by_eval. Qed.

(** C4: in the honest round over the star of three nodes the root, having
    merged the bundles of both leaves and added its own signature, sends
    down a request that holds the signature of leaf 2 alone. *)
Theorem request_carries_last_child_bundle :
  let merged :=
    mkNaiveBlockSignature [Toy.sig_of 1%N; Toy.sig_of 2%N; Toy.sig_of 0%N] [] in
  inflight (Toy.star3_run 3) = [(0%N, BlockSignature Toy.bundle2)]
  ∧ inflight (Toy.star3_run 4)
    = [(1%N, RoundSignatureRequest Toy.bundle2); (2%N, RoundSignatureRequest Toy.bundle2)]
  ∧ tempBlockSig <$> nodeAt (Toy.star3_run 4) 0%N = Some merged
  ∧ Toy.bundle2 ≠ merged.
Proof. all_by_eval. Qed.

Lemma chain3_fifo_round :
  let final := mkNaiveBlockSignature [] [mkException 2%N; mkException 0%N] in
  length (tree_list Toy.chain3) = 3%nat
  ∧ inflight (Toy.chain3_run 8) = []
  ∧ parked (Toy.chain3_run 8) = []
  ∧ (λ nt, size (tempBlockSig nt)) <$> nodeAt (Toy.chain3_run 8) 0%N = Some 3%nat
  ∧ tempSignatureResponse <$> nodeAt (Toy.chain3_run 8) 0%N = Some final
  ∧ completed (Toy.chain3_run 8) = [(Some Toy.blk, final)]
  ∧ size final = 2%nat.
Proof. all_by_eval. Qed.

(** On the chain one message is in flight at a time, so a delivery either
    does nothing or makes the one step the first-come-first-served round
    makes. *)
Lemma deliver_out_of_range (i : nat) (net : network) :
  (length (inflight net) <= i)%nat → deliver i net = net.
Proof.
  intros Hle. unfold deliver. by rewrite lookup_ge_None_2.
Qed.

Lemma chain3_one_in_flight (k : nat) :
  (k < 8)%nat → length (inflight (Toy.chain3_run k)) = 1%nat.
Proof.
  intros Hk. do 8 (destruct k as [|k]; [by_eval|]). lia.
Qed.

Lemma chain3_none_in_flight : length (inflight (Toy.chain3_run 8)) = 0%nat.
Proof. by_eval. Qed.

Lemma run_snoc (sched : list nat) (i : nat) (net : network) :
  run (sched ++ [i]) net = deliver i (run sched net).
Proof.
  revert net. induction sched as [|j sched IH]; intros net; [done|].
  cbn [app run]. apply IH.
Qed.

Lemma chain3_run_S (k : nat) :
  Toy.chain3_run (S k) = deliver 0 (Toy.chain3_run k).
Proof.
  unfold Toy.chain3_run, round. by rewrite replicate_S_end, run_snoc.
Qed.

Lemma chain3_deliver (k i : nat) :
  (k < 8)%nat →
  deliver i (Toy.chain3_run k) = Toy.chain3_run k
  ∨ deliver i (Toy.chain3_run k) = Toy.chain3_run (S k).
Proof.
  intros Hk. destruct i as [|i].
  - right. by rewrite chain3_run_S.
  - left. apply deliver_out_of_range. rewrite chain3_one_in_flight by done. lia.
Qed.

Lemma chain3_deliver_final (i : nat) :
  deliver i (Toy.chain3_run 8) = Toy.chain3_run 8.
Proof. apply deliver_out_of_range. rewrite chain3_none_in_flight. lia. Qed.

Lemma chain3_run_schedule (sched : list nat) (k : nat) :
  (k <= 8)%nat →
  ∃ j, (k <= j <= 8)%nat ∧ run sched (Toy.chain3_run k) = Toy.chain3_run j.
Proof.
  revert k. induction sched as [|i sched IH]; intros k Hk.
  - exists k. split; [lia|exact eq_refl].
  - cbn [run]. destruct (decide (k = 8%nat)) as [->|Hne].
    + rewrite chain3_deliver_final. apply IH. lia.
    + destruct (chain3_deliver k i ltac:(lia)) as [-> | ->].
      * apply IH. lia.
      * destruct (IH (S k) ltac:(lia)) as (j & Hj & Hrun).
        exists j. split; [lia|exact Hrun].
Qed.

Lemma chain3_in_flight (j : nat) :
  (j <= 8)%nat → inflight (Toy.chain3_run j) = [] → j = 8%nat.
Proof.
  intros Hj Hnil. destruct (decide (j = 8%nat)) as [|Hne]; [assumption|].
  pose proof (chain3_one_in_flight j ltac:(lia)) as Hone.
  rewrite Hnil in Hone. discriminate Hone.
Qed.

Lemma chain3_round_start (sched : list nat) :
  round Toy.keys Toy.chain3 (Some Toy.blk) sched = run sched (Toy.chain3_run 0).
Proof. exact eq_refl. Qed.

(** C5: in the honest round over the chain of three nodes, whatever the
    order of delivery, once every message is delivered the root holds three
    contributions for phase 1 and two for phase 2: the contribution of
    node 1 is missing from the bundle handed to the completion callback. *)
Theorem root_phase2_bundle_misses_a_participant (sched : list nat) :
  let net := round Toy.keys Toy.chain3 (Some Toy.blk) sched in
  let final := mkNaiveBlockSignature [] [mkException 2%N; mkException 0%N] in
  inflight net = [] →
  length (tree_list Toy.chain3) = 3%nat
  ∧ parked net = []
  ∧ (λ nt, size (tempBlockSig nt)) <$> nodeAt net 0%N = Some 3%nat
  ∧ tempSignatureResponse <$> nodeAt net 0%N = Some final
  ∧ completed net = [(Some Toy.blk, final)]
  ∧ size final = 2%nat.
Proof.
  cbv zeta. rewrite chain3_round_start.
  destruct (chain3_run_schedule sched 0 ltac:(lia)) as (j & Hj & ->).
  intros Hdone. apply chain3_in_flight in Hdone; [|lia]. subst j.
  pose proof chain3_fifo_round as Hfifo. cbv zeta in Hfifo.
  destruct Hfifo as (H1 & _ & H2 & H3 & H4 & H5 & H6).
  exact (conj H1 (conj H2 (conj H3 (conj H4 (conj H5 H6))))).
Qed.

Lemma binary7_final_bundle :
  length (tree_list Toy.binary7) = 7%nat
  ∧ inflight (round Toy.keys Toy.binary7 (Some Toy.blk) (replicate 24 0%nat)) = []
  ∧ (λ r, size r.2) <$> completed (round Toy.keys Toy.binary7 (Some Toy.blk)
                                       (replicate 24 0%nat))
    = [3%nat].
Proof. all_by_eval. Qed.



(** ** The general theorems at concrete inputs *)


Lemma toy_verify_sound (sk : N) (m : bytes) (s : N * bytes) (pk : N) (m' : bytes) :
  Toy.sign sk m = (s, None) → pk ≠ sk → Toy.verify pk m' s ≠ None.
Proof.
  unfold Toy.sign, Toy.verify. intros Hs Hpk.
  destruct (decide (s = (pk, m'))) as [Heq|Hne]; [|discriminate].
  intros _. apply Hpk. congruence.
Defined.





Lemma root_phase2_bundle_misses_a_participant_witness :
  inflight (round Toy.keys Toy.chain3 (Some Toy.blk) (replicate 8 0%nat)) = []
  ∧ completed (round Toy.keys Toy.chain3 (Some Toy.blk) (replicate 8 0%nat))
    = [(Some Toy.blk, mkNaiveBlockSignature [] [mkException 2%N; mkException 0%N])].
Proof.
  assert (Hdone : inflight (round Toy.keys Toy.chain3 (Some Toy.blk) (replicate 8 0%nat))
                  = []) by by_eval.
  split; [exact Hdone|].
  exact (proj1 (proj2 (proj2 (proj2 (proj2
           (root_phase2_bundle_misses_a_participant (replicate 8 0%nat) Hdone)))))).
Defined.

Lemma merge_order_irrelevant_witness :
  [Toy.bundle1; Toy.bundle2] ≡ₚ [Toy.bundle2; Toy.bundle1]
  ∧ listenAll (BlockSignature <$> [Toy.bundle1; Toy.bundle2]) Toy.root_started
    = Ret tt Toy.root_merged Toy.root_sent
  ∧ ∃ nt2 out2,
      listenAll (BlockSignature <$> [Toy.bundle2; Toy.bundle1]) Toy.root_started
      = Ret tt nt2 out2
      ∧ Sigs (tempBlockSig Toy.root_merged) ≡ₚ Sigs (tempBlockSig nt2)
      ∧ Exceptions (tempBlockSig Toy.root_merged) ≡ₚ Exceptions (tempBlockSig nt2).
Proof.
  assert (Hp : [Toy.bundle1; Toy.bundle2] ≡ₚ [Toy.bundle2; Toy.bundle1])
    by apply perm_swap.
  assert (Hrun : listenAll (BlockSignature <$> [Toy.bundle1; Toy.bundle2]) Toy.root_started
                 = Ret tt Toy.root_merged Toy.root_sent) by by_eval.
  split; [exact Hp|]. split; [exact Hrun|].
  exact (proj2 (proj2 (proj2 (proj2
           (merge_order_irrelevant Toy.root_started Toy.root_merged Toy.root_sent
              _ _ Hp eq_refl eq_refl ltac:(discriminate) eq_refl Hrun))))).
Defined.

Lemma goodSig_own_key_witness :
  len (Sigs Toy.refusals) < 2 ^ 63 - 1
  ∧ Toy.sign 2%N Toy.payload1 = (Toy.sig_of 2%N, None)
  ∧ 2%N ≠ public Toy.leaf1
  ∧ goodSig Toy.leaf1 (add_sig (Toy.sig_of 2%N) Toy.refusals)
    = goodSig Toy.leaf1 Toy.refusals.
Proof.
  assert (H1 : len (Sigs Toy.refusals) < 2 ^ 63 - 1) by (vm_compute; reflexivity).
  assert (H2 : (2%N : N) ≠ public Toy.leaf1) by discriminate.
  split; [exact H1|]. split; [reflexivity|]. split; [exact H2|].
  exact (proj2 (goodSig_own_key Toy.leaf1 Toy.refusals (λ sk, sk) 2%N Toy.payload1
                  (Toy.sig_of 2%N) H1 toy_verify_sound eq_refl H2)).
Defined.

End Concrete.

(** * The rest of the event loop *)

Section Loop.
Context `{C : Collaborators}.

Ltac run_loop :=
  unfold listen, Start, handleBlockSignature, handleRoundSignatureResponse,
    startBlockSignature, startSignatureResponse, startSignatureRequest,
    computeBlockSignature, computeSignatureResponse, go_VerifyBlock,
    go_verifySignatureRequest in *;
  unfold bind, modify, get, emit, ret, panic,
    recv_verifyBlockChan, recv_verifySignatureRequestChan in *;
  cbn in *;
  repeat (first [ rewrite sendToChildren_events in *
                | case_match ]; cbn in *; simplify_eq; try done).



Lemma to_neighbour_children (nt nt0 : Ntree) (m : Msg) :
  Children nt0 = Children nt →
  Forall (to_neighbour nt) ((λ tn, SendTo (Some tn) m) <$> Children nt0).
Proof.
  intros ->. apply Forall_fmap, Forall_forall. intros tn Htn. right. eauto.
Qed.

Ltac neighbours :=
  repeat first
    [ apply Forall_nil_2
    | apply Forall_cons_2; [cbn; auto; try (by left)|]
    | apply Forall_app_2
    | by apply to_neighbour_children ].

(** Whatever message the loop takes and however the iteration ends, and in
    [Start] as well, the node hands messages to the overlay for its parent
    and its children only. *)
Theorem sends_only_to_neighbours (nt : Ntree) (m : Msg) :
  Forall (to_neighbour nt) (outcome_events (listen m nt))
  ∧ Forall (to_neighbour nt) (outcome_events (Start nt)).
Proof.
  split.
  - destruct m as [b|msg|msg|msg]; run_loop; neighbours.
  - run_loop; neighbours.
Qed.

Ltac completions :=
  repeat first
    [ apply Forall_nil_2
    | apply Forall_cons_2; [done|]
    | apply Forall_app_2
    | apply Forall_fmap, Forall_forall; by intros ].


Ltac extends :=
  repeat first
    [ done
    | apply prefix_app_r ].

(** No iteration of the loop, however it ends, removes or reorders what a
    bundle of the node holds: signatures and exceptions are only appended. *)
Theorem bundles_only_grow (nt : Ntree) (m : Msg) :
  bundles_extend nt (outcome_state (listen m nt)).
Proof.
  unfold bundles_extend.
  destruct m as [b|msg|msg|msg]; run_loop; repeat split; extends.
Qed.


(** The root's last phase-2 bundle: the root adds its own item and hands
    its own merged bundle, one item larger than what it held and received
    together, to the completion callback, once. *)
Theorem root_completes_with_merged_bundle (nt : Ntree) msg ok q b payload sig :
  ¬ int_add (tempSignatureResponseReceived nt) 1 < len (Children nt) →
  IsRoot nt = true →
  onDoneCallback nt = true →
  verifySignatureRequestChan nt = ok :: q →
  ok = false ∨ (block nt = Some b ∧ jsonMarshalHeader (Header b) = (payload, None)
                ∧ SignSchnorr (private nt) payload = (sig, None)) →
  ∃ nt',
    listen (RoundSignatureResponse msg) nt
    = Ret tt nt' [OnDone (block nt) (tempSignatureResponse nt')]
    ∧ tempSignatureResponse nt'
      = (if ok then add_sig sig else add_exception (mkException (nodeID nt)))
          (merge (tempSignatureResponse nt) msg)
    ∧ size (tempSignatureResponse nt') = S (size (tempSignatureResponse nt) + size msg).
Proof.
  intros Hge Hroot Hcb Hq Hok.
  cbn [listen]. unfold handleRoundSignatureResponse, bind, modify, get, ret. cbn.
  rewrite bool_decide_false by done.
  set (nt0 := set_tempSignatureResponseReceived _ _).
  destruct (computeSignatureResponse_adds_one nt0 ok q b payload sig Hq Hok)
    as (item & -> & -> & Hsize).
  unfold IsRoot in *. cbn. rewrite Hroot, Hcb. unfold emit. cbn.
  exists (set_tempSignatureResponse
            ((if ok then add_sig sig else add_exception (mkException (nodeID nt)))
               (merge (tempSignatureResponse nt) msg))
            (set_verifySignatureRequestChan q nt0)).
  split; [reflexivity|]. cbn. split; [done|].
  destruct ok; [rewrite size_add_sig|rewrite size_add_exception];
    by rewrite size_merge.
Qed.

(** The booleans a bundle verification offers: at most two [false], then
    [true].  The last value is [true] whatever the bundle holds. *)
Theorem verifySignatureRequest_shape (nt : Ntree) (msg : NaiveBlockSignature) :
  ∃ rejections,
    verifySignatureRequest nt msg = rejections ++ [true]
    ∧ Forall (λ v, v = false) rejections
    ∧ (length rejections <= 2)%nat.
Proof.
  unfold verifySignatureRequest.
  repeat case_bool_decide.
  - exists [false; false]. repeat split; [by repeat constructor|cbn; lia].
  - exists [false]. repeat split; [by repeat constructor|cbn; lia].
  - exists [false]. repeat split; [by repeat constructor|cbn; lia].
  - exists []. repeat split; [by repeat constructor|cbn; lia].
Qed.

(** The count of verified signatures lies between zero and the number of
    signatures in the bundle, so a bundle with no more than 2f signatures is
    rejected whatever they are. *)
Theorem few_signatures_rejected (nt : Ntree) (msg : NaiveBlockSignature) :
  len (Sigs msg) < 2 ^ 63 →
  len (TreeList nt) < 2 ^ 52 →
  len (Sigs msg) <= 2 * threshold nt →
  0 <= goodSig nt msg <= len (Sigs msg)
  ∧ head (verifySignatureRequest nt msg) = Some false.
Proof.
  intros Hs Hn52 Hfew.
  assert (Hn : len (TreeList nt) < 2 ^ 63).
  { change (2 ^ 52) with 4503599627370496 in Hn52.
    change (2 ^ 63) with 9223372036854775808. lia. }
  assert (Hgood : 0 <= goodSig nt msg <= len (Sigs msg)).
  { rewrite goodSig_count by done. unfold verified, len.
    pose proof (length_filter
                  (λ sig, VerifySchnorr (public nt) (jsonMarshalBlock (block nt)).1 sig = None)
                  (Sigs msg)). lia. }
  split; [exact Hgood|].
  rewrite verifySignatureRequest_head by done.
  f_equal. apply not_true_is_false. intros Hacc.
  apply ThresholdPolicy_true in Hacc as [_ Hacc].
  rewrite <- threshold_ceil in Hacc.
  rewrite goodSig_count in Hgood by done. unfold len in *. lia.
Qed.

(** A leaf answers the announcement at once: it takes the block, lets the
    block verification decide between a signature over the encoded block and
    an exception with its own ID, and sends its bundle to its parent; no
    verification result is left pending. *)
Theorem leaf_answers_announce (nt : Ntree) (b : option TrBlock) :
  IsLeaf nt = true →
  verifyBlockChan nt = [] →
  (jsonMarshalBlock b).2 = None →
  ∃ nt',
    listen (BlockAnnounce b) nt
    = Ret tt nt' [SendTo (Parent nt) (BlockSignature (tempBlockSig nt'))]
    ∧ block nt' = b
    ∧ verifyBlockChan nt' = []
    ∧ tempBlockSig nt'
      = (if VerifyBlock b
         then add_sig (SignSchnorr (private nt) (jsonMarshalBlock b).1).1
         else add_exception (mkException (nodeID nt))) (tempBlockSig nt).
Proof.
  intros Hleaf Hq Herr.
  cbn [listen]. unfold bind, modify, go_VerifyBlock, get. cbn.
  unfold IsLeaf in *. cbn. rewrite Hleaf. rewrite Hq. cbn.
  unfold startBlockSignature, bind.
  set (nt0 := set_verifyBlockChan _ _).
  destruct (computeBlockSignature_adds_one nt0 (VerifyBlock b) [] eq_refl Herr)
    as (item & -> & -> & _).
  unfold get, emit. cbn.
  exists (set_tempBlockSig
            ((if VerifyBlock b
              then add_sig (SignSchnorr (private nt) (jsonMarshalBlock b).1).1
              else add_exception (mkException (nodeID nt))) (tempBlockSig nt))
            (set_verifyBlockChan [] nt0)).
  done.
Qed.


(** An inner node relays an announcement, and a signature request, to each
    of its children in their order, once and unmodified, and adds nothing to
    its bundles before its children report. *)
Theorem inner_node_relays (nt : Ntree) (b : option TrBlock) (msg : NaiveBlockSignature) :
  IsLeaf nt = false →
  (∃ nt', listen (BlockAnnounce b) nt
          = Ret tt nt' ((λ tn, SendTo (Some tn) (BlockAnnounce b)) <$> Children nt)
          ∧ block nt' = b
          ∧ tempBlockSig nt' = tempBlockSig nt
          ∧ tempSignatureResponse nt' = tempSignatureResponse nt)
  ∧ (∃ nt', listen (RoundSignatureRequest msg) nt
            = Ret tt nt' ((λ tn, SendTo (Some tn) (RoundSignatureRequest msg))
                            <$> Children nt)
            ∧ block nt' = block nt
            ∧ tempBlockSig nt' = tempBlockSig nt
            ∧ tempSignatureResponse nt' = tempSignatureResponse nt).
Proof.
  intros Hleaf. unfold IsLeaf in Hleaf. split.
  - cbn [listen]. unfold bind, modify, go_VerifyBlock, modify, get. cbn.
    unfold IsLeaf. cbn. rewrite Hleaf, sendToChildren_events. cbn.
    eexists. split; [reflexivity|]. done.
  - cbn [listen]. unfold bind, go_verifySignatureRequest, modify, get. cbn.
    unfold IsLeaf. cbn. rewrite Hleaf, sendToChildren_events. cbn.
    eexists. split; [reflexivity|]. done.
Qed.

End Loop.

(** * Whole runs *)

Section Runs.
Context `{C : Collaborators}.

Lemma run_idle (sched : list nat) (net : network) :
  inflight net = [] → run sched net = net.
Proof.
  intros Hidle. induction sched as [|i sched IH]; [done|].
  cbn [run]. unfold deliver. rewrite Hidle. cbn. exact IH.
Qed.

(** On a tree that is the root alone nothing ever happens after [Start]:
    no message is in flight, the root contributes to neither bundle, and the
    completion callback is never run, whatever the schedule. *)
Theorem lone_root_never_completes (keys : TreeNodeID → Private * Public)
    (id : TreeNodeID) (b : option TrBlock) (sched : list nat) :
  let net := round keys (T id []) b sched in
  inflight net = []
  ∧ completed net = []
  ∧ (λ nt, (tempBlockSig nt, tempSignatureResponse nt, verifyBlockChan nt))
      <$> nodeAt net id
    = Some (mkNaiveBlockSignature [] [], mkNaiveBlockSignature [] [], [VerifyBlock b]).
Proof.
  cbv zeta. unfold round.
  assert (Hstart : ∃ ns,
            at_node id Start (init_network keys (T id []) b)
            = mkNetwork
                (<[id := set_verifyBlockChan [VerifyBlock b]
                           (RegisterOnDone
                              (set_block b
                                 (NewNtreeProtocol id None [] [id] (keys id).1 (keys id).2)))]>
                   ns) [] [] []).
  { unfold at_node, init_network. cbn.
    rewrite lookup_alter_eq, lookup_insert_eq. cbn.
    rewrite bool_decide_false by apply not_elem_of_nil. eauto. }
  destruct Hstart as (ns & Hstart). cbn [tree_id]. rewrite Hstart.
  rewrite run_idle by done. unfold nodeAt. cbn.
  by rewrite lookup_insert_eq.
Qed.

End Runs.

Section LoopWitnesses.
#[local] Existing Instance Toy.collaborators.


Lemma root_completes_with_merged_bundle_witness :
  IsRoot Toy.root_last = true
  ∧ onDoneCallback Toy.root_last = true
  ∧ ∃ nt',
      listen (RoundSignatureResponse Toy.refusals) Toy.root_last
      = Ret tt nt' [OnDone (block Toy.root_last) (tempSignatureResponse nt')]
      ∧ size (tempSignatureResponse nt') = 3%nat.
Proof.
  assert (H1 : ¬ int_add (tempSignatureResponseReceived Toy.root_last) 1
                 < len (Children Toy.root_last)).
  { intros H. vm_compute in H. discriminate H. }
  split; [reflexivity|]. split; [reflexivity|].
  destruct (root_completes_with_merged_bundle Toy.root_last Toy.refusals false []
              Toy.blk Toy.payload2 (0%N, Toy.payload2)
              H1 eq_refl eq_refl eq_refl (or_introl eq_refl))
    as (nt' & Hrun & _ & Hsize).
  exists nt'. split; [exact Hrun|exact Hsize].
Defined.

Lemma few_signatures_rejected_witness :
  len (Sigs Toy.bundle2) <= 2 * threshold Toy.leaf1
  ∧ head (verifySignatureRequest Toy.leaf1 Toy.bundle2) = Some false.
Proof.
  assert (H1 : len (Sigs Toy.bundle2) < 2 ^ 63) by (vm_compute; reflexivity).
  assert (H2 : len (TreeList Toy.leaf1) < 2 ^ 52) by (vm_compute; reflexivity).
  assert (H3 : len (Sigs Toy.bundle2) <= 2 * threshold Toy.leaf1).
  { intros H. vm_compute in H. discriminate H. }
  split; [exact H3|].
  exact (proj2 (few_signatures_rejected Toy.leaf1 Toy.bundle2 H1 H2 H3)).
Defined.

Lemma leaf_answers_announce_witness :
  IsLeaf Toy.leaf1 = true
  ∧ ∃ nt',
      listen (BlockAnnounce (Some Toy.blk)) Toy.leaf1
      = Ret tt nt' [SendTo (Parent Toy.leaf1) (BlockSignature (tempBlockSig nt'))]
      ∧ tempBlockSig nt' = Toy.bundle1.
Proof.
  split; [reflexivity|].
  destruct (leaf_answers_announce Toy.leaf1 (Some Toy.blk) eq_refl eq_refl eq_refl)
    as (nt' & Hrun & _ & _ & Hbundle).
  exists nt'. split; [exact Hrun|exact Hbundle].
Defined.


Lemma inner_node_relays_witness :
  IsLeaf Toy.root_started = false
  ∧ ∃ nt',
      listen (RoundSignatureRequest Toy.bundle2) Toy.root_started
      = Ret tt nt' [SendTo (Some 1%N) (RoundSignatureRequest Toy.bundle2);
                    SendTo (Some 2%N) (RoundSignatureRequest Toy.bundle2)]
      ∧ tempSignatureResponse nt' = tempSignatureResponse Toy.root_started.
Proof.
  split; [reflexivity|].
  destruct (proj2 (inner_node_relays Toy.root_started (Some Toy.blk) Toy.bundle2 eq_refl))
    as (nt' & Hrun & _ & _ & Hbundle).
  exists nt'. split; [exact Hrun|exact Hbundle].
Defined.

End LoopWitnesses.

(** * The client simulation: properties *)

Section ClientProperties.
Context {Tx BlockServer : Type}.
Variable Parse : string → list Byte.byte → Z → Z → list Tx * Client.error.
Variable AddTransaction : Tx → BlockServer → BlockServer.

Lemma addEach_app (l l' : list Tx) (srv : BlockServer) :
  Client.addEach AddTransaction (l ++ l') srv
  = Client.addEach AddTransaction l' (Client.addEach AddTransaction l srv).
Proof. unfold Client.addEach. by rewrite foldl_app. Qed.

(** The loop hands the whole list to the server once per unit of
    [consumed]; it stops on its own condition, not on the fuel. *)
Lemma consume_repeats (fuel : nat) (consumed : Z) (transactions : list Tx)
    (srv : BlockServer) :
  consumed < 2 ^ 63 →
  (Z.to_nat consumed <= fuel)%nat →
  Client.consume AddTransaction fuel consumed transactions srv
  = Client.addEach AddTransaction
      (concat (replicate (Z.to_nat consumed) transactions)) srv.
Proof.
  revert consumed srv. induction fuel as [|fuel IH]; intros consumed srv Hmax Hfuel.
  - cbn. replace (Z.to_nat consumed) with 0%nat by lia. done.
  - cbn [Client.consume]. case_bool_decide as Hpos.
    + assert (Hdec : int_add consumed (-1) = consumed - 1).
      { unfold int_add. apply int_wrap_small.
        change (2 ^ 63) with 9223372036854775808 in *. lia. }
      rewrite Hdec, IH by lia.
      replace (Z.to_nat consumed) with (S (Z.to_nat (consumed - 1))) by lia.
      cbn [replicate concat]. by rewrite addEach_app.
    + replace (Z.to_nat consumed) with 0%nat by lia. done.
Qed.

(** When the parser finds no transaction the client fails with its own
    error, whatever error the parser reported, and when the parser finds
    some but reports an error the client fails with that error; in both
    cases the server is given nothing. *)
Theorem triggerTransactions_errors (blocksPath : string) (nTxs : Z) (srv : BlockServer)
    (transactions : list Tx) (err : Client.error) :
  Parse blocksPath Client.magicNum 0 Client.ReadFirstNBlocks = (transactions, err) →
  transactions = [] ∨ err ≠ None →
  let '(res, srv', _) := Client.triggerTransactions Parse AddTransaction blocksPath nTxs srv in
  srv' = srv
  ∧ res = match transactions with
          | [] => Some "Couldn't read any transactions."%string
          | _ => err
          end
  ∧ res ≠ None.
Proof.
  intros Hparse Hfail. unfold Client.triggerTransactions. rewrite Hparse.
  destruct transactions as [|tr transactions].
  - by rewrite bool_decide_true by done.
  - rewrite bool_decide_false by (rewrite len_cons; pose proof (len_nonneg transactions); lia).
    destruct Hfail as [|Herr]; [done|]. by destruct err.
Qed.

(** When the parser finds transactions and reports no error the client
    returns nil and the server has been given the whole list of
    transactions, in order, as many times over as the smaller of the number
    found and the number asked for, and not at all when the number asked for
    is zero or negative. *)
Theorem triggerTransactions_adds (blocksPath : string) (nTxs : Z) (srv : BlockServer)
    (transactions : list Tx) :
  Parse blocksPath Client.magicNum 0 Client.ReadFirstNBlocks = (transactions, None) →
  transactions ≠ [] →
  len transactions < 2 ^ 63 →
  let '(res, srv', _) := Client.triggerTransactions Parse AddTransaction blocksPath nTxs srv in
  res = None
  ∧ srv' = Client.addEach AddTransaction
             (concat (replicate (Z.to_nat (Z.min (len transactions) nTxs)) transactions))
             srv
  ∧ (nTxs <= 0 → srv' = srv).
Proof.
  intros Hparse Hne Hmax. unfold Client.triggerTransactions. rewrite Hparse.
  rewrite bool_decide_false.
  2:{ destruct transactions; [done|]. rewrite len_cons.
      pose proof (len_nonneg transactions). lia. }
  split; [done|].
  assert (Hmin : (if bool_decide (len transactions < nTxs) then len transactions else nTxs)
                 = Z.min (len transactions) nTxs).
  { case_bool_decide; lia. }
  rewrite Hmin. rewrite consume_repeats by lia.
  split; [done|]. intros Hnone.
  replace (Z.to_nat (Z.min (len transactions) nTxs)) with 0%nat by lia. done.
Qed.

End ClientProperties.

Lemma triggerTransactions_errors_witness :
  (Client.triggerTransactions Client.none_failing Client.keep "blocks" 2 [7%nat]).1.2
  = [7%nat]
  ∧ (Client.triggerTransactions Client.none_failing Client.keep "blocks" 2 [7%nat]).1.1
    = Some "Couldn't read any transactions."%string.
Proof.
  pose proof (triggerTransactions_errors Client.none_failing Client.keep "blocks" 2
                [7%nat] [] (Some "no such directory"%string) eq_refl (or_introl eq_refl))
    as H.
  destruct (Client.triggerTransactions Client.none_failing Client.keep "blocks" 2 [7%nat])
    as [[res srv'] log].
  destruct H as (-> & -> & _). split; reflexivity.
Defined.

Lemma triggerTransactions_adds_witness :
  (Client.triggerTransactions Client.three Client.keep "blocks" 2 []).1.2
  = [1; 2; 3; 1; 2; 3]%nat.
Proof.
  pose proof (triggerTransactions_adds Client.three Client.keep "blocks" 2 []
                [1; 2; 3]%nat eq_refl ltac:(discriminate) eq_refl) as H.
  destruct (Client.triggerTransactions Client.three Client.keep "blocks" 2 [])
    as [[res srv'] log].
  destruct H as (_ & -> & _). reflexivity.
Defined.

(** * Twisted Edwards curve points: properties *)

Section EdwardsProperties.
Import Edwards.
Context `{NI : NistInt}.
Local Open Scope nist_scope.

Add Field nist_field : Int_field.

Lemma Int_mul_nonzero (u v : Int) : u ≠ Int0 → v ≠ Int0 → u * v ≠ Int0.
Proof.
  intros Hu Hv Huv. apply Hv.
  transitivity ((u * v) / u); [by field|]. rewrite Huv. by field.
Qed.

Lemma Int_mul_cancel (u v w : Int) : w ≠ Int0 → u * w = v * w → u = v.
Proof.
  intros Hw Huv. transitivity ((u * w) / w); [by field|]. rewrite Huv. by field.
Qed.

(** ** Affine coordinates *)

(** Addition of affine points is symmetric in its two arguments, whatever
    the points and whether or not a denominator vanishes. *)
Theorem Basic_Add_comm (c : curve) (P1 P2 : Basic.basicPoint) :
  Basic.Add c P1 P2 = Basic.Add c P2 P1.
Proof.
  unfold Basic.Add. f_equal; f_equal; ring.
Qed.

(** (0,1) is neutral for the addition of affine points on either side, for
    every point and every curve. *)
Theorem Basic_Add_null (c : curve) (P : Basic.basicPoint) :
  Basic.Add c P Basic.Null = P ∧ Basic.Add c Basic.Null P = P.
Proof.
  destruct P as [x y]. unfold Basic.Add, Basic.Null, Basic.Set_, Basic.null, Basic.initXY.
  cbn. split; f_equal; field; apply (F_1_neq_0 Int_field).
Qed.

(** Negation is an involution, and on the curve a point and its negative
    add up to the neutral element, so [Sub] of a point from itself is the
    neutral element, as long as the denominator of the addition law does not
    vanish. *)
Theorem Basic_Add_Neg (c : curve) (P : Basic.basicPoint) :
  onCurve c (Basic.x P) (Basic.y P) →
  Int1 + d c * (Basic.x P * Basic.x P) * (Basic.y P * Basic.y P) ≠ Int0 →
  Basic.Neg (Basic.Neg P) = P
  ∧ Basic.Add c P (Basic.Neg P) = Basic.Null
  ∧ Basic.Sub c P P = Basic.Null.
Proof.
  destruct P as [x y]. unfold onCurve. cbn. intros Hc Hden.
  assert (Hadd : Basic.Add c (Basic.mkPoint x y) (Basic.Neg (Basic.mkPoint x y))
                 = Basic.Null).
  { unfold Basic.Add, Basic.Neg, Basic.Null, Basic.Set_, Basic.null, Basic.initXY. cbn.
    f_equal.
    - rewrite (Fdiv_def Int_field). ring.
    - assert (Hden' : Int1 - d c * x * - x * y * y ≠ Int0).
      { intros H. apply Hden. rewrite <- H. ring. }
      apply (Int_mul_cancel _ _ (Int1 - d c * x * - x * y * y)); [done|].
      transitivity (y * y - a c * (x * - x)); [by field|].
      transitivity (Int1 + d c * (x * x) * (y * y)); [rewrite <- Hc|]; ring. }
  split; [|split; [exact Hadd|exact Hadd]].
  unfold Basic.Neg. cbn. f_equal. ring.
Qed.

(** ** Extended coordinates *)

(** [Sub] computes, coordinate by coordinate, what [Add] computes on the
    first point and the negative of the second. *)
Theorem Ext_Sub_Add_Neg (c : curve) (P1 P2 : Ext.extPoint) :
  Ext.Sub c P1 P2 = Ext.Add c P1 (Ext.Neg P2).
Proof.
  unfold Ext.Sub, Ext.Add, Ext.Neg. cbn. f_equal; ring.
Qed.

(** The check of [checkT] holds for every point that [initXY], [normalize],
    [Add], [Sub] or [double] produces, whatever their arguments, and [Neg]
    keeps it: after these operations [checkT] does not panic. *)
Theorem Ext_checkT_kept (c : curve) (P1 P2 : Ext.extPoint) (x y : Int) :
  Ext.checkT (Ext.initXY x y) = true
  ∧ Ext.checkT (Ext.normalize P1) = true
  ∧ Ext.checkT (Ext.Add c P1 P2) = true
  ∧ Ext.checkT (Ext.Sub c P1 P2) = true
  ∧ Ext.checkT (Ext.double c P1) = true
  ∧ (Ext.checkT P1 = true → Ext.checkT (Ext.Neg P1) = true).
Proof.
  unfold Ext.checkT. repeat split; try (apply IntEqual_eq; cbn; ring).
  intros H%IntEqual_eq. apply IntEqual_eq. cbn.
  transitivity (- (Ext.X P1 * Ext.Y P1)); [ring|]. rewrite H. ring.
Qed.

(** The equality test on extended points decides the equality of the
    affine points they stand for, when neither has Z = 0. *)
Theorem Ext_Equal_affine (P1 P2 : Ext.extPoint) :
  Ext.Z P1 ≠ Int0 → Ext.Z P2 ≠ Int0 →
  Ext.Equal P1 P2 = true ↔ Ext.getXY P1 = Ext.getXY P2.
Proof.
  destruct P1 as [X1 Y1 Z1 T1], P2 as [X2 Y2 Z2 T2]. cbn. intros H1 H2.
  unfold Ext.Equal, Ext.getXY. cbn.
  rewrite andb_true_iff, !IntEqual_eq. split.
  - intros [Hx Hy]. f_equal.
    + apply (Int_mul_cancel _ _ (Z1 * Z2)); [by apply Int_mul_nonzero|].
      transitivity (X1 * Z2); [by field|]. rewrite Hx. by field.
    + apply (Int_mul_cancel _ _ (Z1 * Z2)); [by apply Int_mul_nonzero|].
      transitivity (Y1 * Z2); [by field|]. rewrite Hy. by field.
  - intros [= Hx Hy]. split.
    + transitivity ((X1 * IntInv Z1) * (Z1 * Z2)); [by field|]. rewrite Hx. by field.
    + transitivity ((Y1 * IntInv Z1) * (Z1 * Z2)); [by field|]. rewrite Hy. by field.
Qed.

(** [normalize] brings a point with Z not 0 to Z = 1 without changing the
    point it stands for, and normalizing twice is normalizing once. *)
Theorem Ext_normalize (P : Ext.extPoint) :
  Ext.Z P ≠ Int0 →
  Ext.Z (Ext.normalize P) = Int1
  ∧ Ext.Equal (Ext.normalize P) P = true
  ∧ Ext.normalize (Ext.normalize P) = Ext.normalize P.
Proof.
  destruct P as [X Y Z T]. cbn. intros HZ. split; [done|]. split.
  - unfold Ext.Equal. cbn. rewrite andb_true_iff, !IntEqual_eq. split; by field.
  - unfold Ext.normalize. cbn.
    assert (H1 : IntInv Int1 = Int1) by (field; apply (F_1_neq_0 Int_field)).
    rewrite H1. f_equal; ring.
Qed.

(** Addition in extended coordinates is addition of the affine points: for
    two points with Z not 0 and T = XY/Z whose affine sum has nonvanishing
    denominators, the sum has Z not 0 and stands for the affine sum. *)
Theorem Ext_Add_affine (c : curve) (P1 P2 : Ext.extPoint) :
  let Q1 := Basic.mkPoint (Ext.getXY P1).1 (Ext.getXY P1).2 in
  let Q2 := Basic.mkPoint (Ext.getXY P2).1 (Ext.getXY P2).2 in
  let dm := (((d c * Basic.x Q1) * Basic.x Q2) * Basic.y Q1) * Basic.y Q2 in
  Ext.Z P1 ≠ Int0 → Ext.Z P2 ≠ Int0 →
  Ext.checkT P1 = true → Ext.checkT P2 = true →
  Int1 + dm ≠ Int0 → Int1 - dm ≠ Int0 →
  Ext.Z (Ext.Add c P1 P2) ≠ Int0
  ∧ Ext.getXY (Ext.Add c P1 P2) = Basic.getXY (Basic.Add c Q1 Q2).
Proof.
  destruct P1 as [X1 Y1 Z1 T1], P2 as [X2 Y2 Z2 T2].
  unfold Ext.checkT, Ext.getXY, Basic.getXY, Basic.Add. cbn.
  intros HZ1 HZ2 HT1%IntEqual_eq HT2%IntEqual_eq Hp Hm.
  assert (E1 : T1 = X1 * Y1 / Z1).
  { apply (Int_mul_cancel _ _ Z1); [done|]. transitivity (Z1 * T1); [ring|].
    rewrite <- HT1. by field. }
  assert (E2 : T2 = X2 * Y2 / Z2).
  { apply (Int_mul_cancel _ _ Z2); [done|]. transitivity (Z2 * T2); [ring|].
    rewrite <- HT2. by field. }
  subst T1 T2. clear HT1 HT2.
  assert (HZZ : Z1 * Z2 ≠ Int0) by by apply Int_mul_nonzero.
  assert (HF : Z1 * Z2 - X1 * Y1 / Z1 * (X2 * Y2 / Z2) * d c ≠ Int0).
  { intros H. apply (Int_mul_nonzero _ _ HZZ Hm). rewrite <- H. by field. }
  assert (HG : Z1 * Z2 + X1 * Y1 / Z1 * (X2 * Y2 / Z2) * d c ≠ Int0).
  { intros H. apply (Int_mul_nonzero _ _ HZZ Hp). rewrite <- H. by field. }
  split; [by apply Int_mul_nonzero|].
  f_equal.
  - apply (Int_mul_cancel _ _
             ((Z1 * Z2 - X1 * Y1 / Z1 * (X2 * Y2 / Z2) * d c)
              * (Z1 * Z2 + X1 * Y1 / Z1 * (X2 * Y2 / Z2) * d c)));
      [by apply Int_mul_nonzero|].
    field. repeat split; try done.
    + intros H. apply (Int_mul_nonzero _ _ HZZ HG). rewrite <- H. by field.
    + intros H. apply (Int_mul_nonzero _ _ HZZ HF). rewrite <- H. by field.
  - apply (Int_mul_cancel _ _
             ((Z1 * Z2 - X1 * Y1 / Z1 * (X2 * Y2 / Z2) * d c)
              * (Z1 * Z2 + X1 * Y1 / Z1 * (X2 * Y2 / Z2) * d c)));
      [by apply Int_mul_nonzero|].
    field. repeat split; try done.
    + intros H. apply (Int_mul_nonzero _ _ HZZ HF). rewrite <- H. by field.
    + intros H. apply (Int_mul_nonzero _ _ HZZ HG). rewrite <- H. by field.
Qed.

(** On the curve the dedicated doubling and the addition of a point to
    itself give the same point: their results pass the equality test. *)
Theorem Ext_double_Add (c : curve) (P : Ext.extPoint) :
  Ext.Z P ≠ Int0 →
  Ext.checkT P = true →
  onCurve c (Ext.getXY P).1 (Ext.getXY P).2 →
  Ext.Equal (Ext.double c P) (Ext.Add c P P) = true.
Proof.
  destruct P as [X Y Z T]. unfold Ext.checkT, Ext.getXY, onCurve. cbn.
  intros HZ HT%IntEqual_eq Hc.
  assert (ET : T = X * Y / Z).
  { apply (Int_mul_cancel _ _ Z); [done|]. transitivity (Z * T); [ring|].
    rewrite <- HT. by field. }
  assert (Hext : T * T * d c = a c * (X * X) + Y * Y - Z * Z).
  { apply (Int_mul_cancel _ _ (IntInv Z * IntInv Z)).
    { apply Int_mul_nonzero; intros H; apply (F_1_neq_0 Int_field);
        (transitivity (Z * IntInv Z); [by field|]); rewrite H; ring. }
    transitivity (a c * (X * IntInv Z * (X * IntInv Z)) + Y * IntInv Z * (Y * IntInv Z)
                  - Int1); [|by field].
    rewrite Hc. subst T. by field. }
  unfold Ext.Equal, Ext.double, Ext.Add. cbn.
  rewrite andb_true_iff, !IntEqual_eq.
  set (C := T * T * d c) in *.
  split.
  - transitivity (((X + Y) * (X + Y) - X * X - Y * Y)
                  * (a c * (X * X) + Y * Y - (Z * Z + Z * Z))
                  * ((Z * Z - C) * (a c * (X * X) + Y * Y))); [rewrite Hext; ring|].
    rewrite Hext. ring.
  - transitivity ((a c * (X * X) + Y * Y) * (a c * (X * X) - Y * Y)
                  * ((Z * Z - C) * (a c * (X * X) + Y * Y))); [rewrite Hext; ring|].
    rewrite Hext. ring.
Qed.

(** ** Scalar multiplication *)

Lemma mulLoop_S {P : Type} (double : P → P) (Add : P → P → P)
    (v : N) (G : P) (i : nat) (T : P) :
  mulLoop double Add v G (S i) T
  = mulLoop double Add v G i
      (if N.testbit v (N.of_nat i) then Add (double T) G else double T).
Proof. done. Qed.

Lemma mulLoop_low_bit {P : Type} (double : P → P) (Add : P → P → P)
    (G : P) (p : positive) (i : nat) (T : P) :
  mulLoop double Add (Npos p~0) G (S i) T
  = double (mulLoop double Add (Npos p) G i T)
  ∧ mulLoop double Add (Npos p~1) G (S i) T
    = Add (double (mulLoop double Add (Npos p) G i T)) G.
Proof.
  revert T. induction i as [|i IH]; intros T; [done|].
  assert (H0 : N.testbit (N.pos p~0) (N.of_nat (S i)) = N.testbit (N.pos p) (N.of_nat i)).
  { rewrite Nat2N.inj_succ. change (N.pos p~0) with (2 * N.pos p)%N.
    apply N.testbit_even_succ. lia. }
  assert (H1 : N.testbit (N.pos p~1) (N.of_nat (S i)) = N.testbit (N.pos p) (N.of_nat i)).
  { rewrite Nat2N.inj_succ. change (N.pos p~1) with (2 * N.pos p + 1)%N.
    apply N.testbit_odd_succ. lia. }
  split.
  - rewrite (mulLoop_S double Add (N.pos p~0) G (S i)), H0.
    rewrite (proj1 (IH _)). by rewrite <- mulLoop_S.
  - rewrite (mulLoop_S double Add (N.pos p~1) G (S i)), H1.
    rewrite (proj2 (IH _)). by rewrite <- mulLoop_S.
Qed.

(** Scalar multiplication reads the scalar from its highest bit down:
    multiplying by 0 gives the neutral element, by 2v the double of the
    multiple by v, and by 2v+1 that double plus the point; a nil point
    stands for the base point.  This holds in both representations. *)
Theorem Mul_double_and_add (c : curve) (p : positive) :
  (∀ G, Basic.Mul c G 0 = Basic.Null
        ∧ Basic.Mul c G (Npos p~0) = Basic.double c (Basic.Mul c G (Npos p))
        ∧ Basic.Mul c G (Npos p~1)
          = Basic.Add c (Basic.double c (Basic.Mul c G (Npos p)))
              (default (Basic.Base c) G))
  ∧ (∀ G, Ext.Mul c G 0 = Ext.Null
          ∧ Ext.Mul c G (Npos p~0) = Ext.double c (Ext.Mul c G (Npos p))
          ∧ Ext.Mul c G (Npos p~1)
            = Ext.Add c (Ext.double c (Ext.Mul c G (Npos p)))
                (default (Ext.Base c) G)).
Proof.
  assert (HB : ∀ P, Basic.Set_ P = P) by by intros [].
  assert (HE : ∀ P, Ext.Set_ P = P) by by intros [].
  assert (H0 : N.to_nat (N.size (N.pos p~0)) = S (N.to_nat (N.size (N.pos p))))
    by (cbn; lia).
  assert (H1 : N.to_nat (N.size (N.pos p~1)) = S (N.to_nat (N.size (N.pos p))))
    by (cbn; lia).
  split; intros G.
  - unfold Basic.Mul. rewrite !HB.
    rewrite H0, H1.
    destruct (mulLoop_low_bit (Basic.double c) (Basic.Add c)
                (match G with Some G => G | None => Basic.Base c end) p
                (N.to_nat (N.size (N.pos p))) Basic.null) as [-> ->].
    by destruct G.
  - unfold Ext.Mul. rewrite !HE.
    rewrite H0, H1.
    destruct (mulLoop_low_bit (Ext.double c) (Ext.Add c)
                (match G with Some G => G | None => Ext.Base c end) p
                (N.to_nat (N.size (N.pos p))) Ext.null) as [-> ->].
    by destruct G.
Qed.

End EdwardsProperties.

Section EdwardsWitnesses.
Import Edwards.
#[local] Existing Instance rationals.

Ltac qc_eq := apply Qcanon.Qc_is_canon; vm_compute; reflexivity.
Ltac qc_neq :=
  let H := fresh in
  intros H; apply (f_equal Qcanon.this) in H; vm_compute in H; discriminate H.
Ltac qc_test := apply bool_decide_eq_true_2; qc_eq.

Lemma Basic_Add_Neg_witness :
  onCurve circle2 (qc 1) (qc 0)
  ∧ Basic.Sub circle2 (Basic.mkPoint (qc 1) (qc 0)) (Basic.mkPoint (qc 1) (qc 0))
    = Basic.Null.
Proof.
  assert (H1 : onCurve circle2 (qc 1) (qc 0)) by (unfold onCurve; qc_eq).
  assert (H2 : (Int1 + d circle2 * (qc 1 * qc 1) * (qc 0 * qc 0) ≠ Int0)%nist)
    by qc_neq.
  split; [exact H1|].
  exact (proj2 (proj2 (Basic_Add_Neg circle2 (Basic.mkPoint (qc 1) (qc 0)) H1 H2))).
Defined.

Lemma Ext_Equal_affine_witness :
  Ext.Z (Ext.mkPoint (qc 2) (qc 0) (qc 2) (qc 0)) ≠ Int0
  ∧ (Ext.Equal (Ext.mkPoint (qc 2) (qc 0) (qc 2) (qc 0)) (Ext.initXY (qc 1) (qc 0)) = true
     ↔ Ext.getXY (Ext.mkPoint (qc 2) (qc 0) (qc 2) (qc 0))
       = Ext.getXY (Ext.initXY (qc 1) (qc 0))).
Proof.
  assert (H1 : Ext.Z (Ext.mkPoint (qc 2) (qc 0) (qc 2) (qc 0)) ≠ Int0) by qc_neq.
  assert (H2 : Ext.Z (Ext.initXY (qc 1) (qc 0)) ≠ Int0) by qc_neq.
  split; [exact H1|].
  exact (Ext_Equal_affine (Ext.mkPoint (qc 2) (qc 0) (qc 2) (qc 0))
           (Ext.initXY (qc 1) (qc 0)) H1 H2).
Defined.

Lemma Ext_normalize_witness :
  Ext.Z (Ext.mkPoint (qc 2) (qc 0) (qc 2) (qc 0)) ≠ Int0
  ∧ Ext.Equal (Ext.normalize (Ext.mkPoint (qc 2) (qc 0) (qc 2) (qc 0)))
              (Ext.mkPoint (qc 2) (qc 0) (qc 2) (qc 0)) = true.
Proof.
  assert (H1 : Ext.Z (Ext.mkPoint (qc 2) (qc 0) (qc 2) (qc 0)) ≠ Int0) by qc_neq.
  split; [exact H1|].
  exact (proj1 (proj2 (Ext_normalize (Ext.mkPoint (qc 2) (qc 0) (qc 2) (qc 0)) H1))).
Defined.

Lemma Ext_Add_affine_witness :
  Ext.checkT (Ext.mkPoint (qc 2) (qc 0) (qc 2) (qc 0)) = true
  ∧ Ext.getXY (Ext.Add circle2 (Ext.mkPoint (qc 2) (qc 0) (qc 2) (qc 0))
                 (Ext.initXY (qc 0) (qc 1)))
    = Basic.getXY (Basic.Add circle2
                     (Basic.mkPoint
                        (Ext.getXY (Ext.mkPoint (qc 2) (qc 0) (qc 2) (qc 0))).1
                        (Ext.getXY (Ext.mkPoint (qc 2) (qc 0) (qc 2) (qc 0))).2)
                     (Basic.mkPoint (Ext.getXY (Ext.initXY (qc 0) (qc 1))).1
                                    (Ext.getXY (Ext.initXY (qc 0) (qc 1))).2)).
Proof.
  assert (H1 : Ext.Z (Ext.mkPoint (qc 2) (qc 0) (qc 2) (qc 0)) ≠ Int0) by qc_neq.
  assert (H2 : Ext.Z (Ext.initXY (qc 0) (qc 1)) ≠ Int0) by qc_neq.
  assert (H3 : Ext.checkT (Ext.mkPoint (qc 2) (qc 0) (qc 2) (qc 0)) = true) by qc_test.
  assert (H4 : Ext.checkT (Ext.initXY (qc 0) (qc 1)) = true) by qc_test.
  split; [exact H3|].
  refine (proj2 (Ext_Add_affine circle2 (Ext.mkPoint (qc 2) (qc 0) (qc 2) (qc 0))
                   (Ext.initXY (qc 0) (qc 1)) H1 H2 H3 H4 _ _)); qc_neq.
Defined.

Lemma Ext_double_Add_witness :
  onCurve circle2 (Ext.getXY (Ext.mkPoint (qc 2) (qc 0) (qc 2) (qc 0))).1
                  (Ext.getXY (Ext.mkPoint (qc 2) (qc 0) (qc 2) (qc 0))).2
  ∧ Ext.Equal (Ext.double circle2 (Ext.mkPoint (qc 2) (qc 0) (qc 2) (qc 0)))
              (Ext.Add circle2 (Ext.mkPoint (qc 2) (qc 0) (qc 2) (qc 0))
                 (Ext.mkPoint (qc 2) (qc 0) (qc 2) (qc 0))) = true.
Proof.
  assert (H1 : Ext.Z (Ext.mkPoint (qc 2) (qc 0) (qc 2) (qc 0)) ≠ Int0) by qc_neq.
  assert (H2 : Ext.checkT (Ext.mkPoint (qc 2) (qc 0) (qc 2) (qc 0)) = true) by qc_test.
  assert (H3 : onCurve circle2 (Ext.getXY (Ext.mkPoint (qc 2) (qc 0) (qc 2) (qc 0))).1
                               (Ext.getXY (Ext.mkPoint (qc 2) (qc 0) (qc 2) (qc 0))).2)
    by (unfold onCurve; qc_eq).
  split; [exact H3|].
  exact (Ext_double_Add circle2 (Ext.mkPoint (qc 2) (qc 0) (qc 2) (qc 0)) H1 H2 H3).
Defined.

End EdwardsWitnesses.
